(** * gmaps: the widget views and models of the notebook map plugin

    A shallow embedding of the JavaScript module of
    [docs/templates/custom.tpl] (lines 88-346): the loader configuration
    ([reloadGoogleMaps]), the layer views ([DirectionsLayerView], the two
    heat map views), the map view ([PlainmapView]) and the model defaults.

    The browser is single threaded and event driven.  The embedding keeps
    one [World] value holding every object the module touches (models,
    views, map primitives, the loader singleton, pending promise jobs and
    pending routing requests) and threads it through a state and exception
    monad.  Every call made on an object of the mapping library is also
    appended to a trace, so that the order of calls can be stated.

    The world holds one map model with its one map view, and any number
    of layer models and layer views.  The libraries the module is built
    on (the widget framework, underscore, the loader and the mapping
    library) are not part of the sources; each is modelled by just the
    behaviour the module relies on, at the place where it is first used.
    The constructors the module reaches through the global [google] are
    taken to be there whenever they are called. *)

From stdpp Require Import gmap strings list.
From Stdlib Require Import QArith.
Close Scope Q_scope.
Open Scope string_scope.

(** ** JavaScript values *)

(** Numbers are only ever passed through by this module (no arithmetic is
    done on them), so they are carried as rationals written as in the
    notebook: [51.4], [-0.2]. *)
Definition number := Q.

#[global] Instance number_eq_dec : EqDecision number.
Proof. solve_decision. Defined.

Inductive JsValue :=
| JUndefined
| JNull
| JBool (b : bool)
| JNumber (n : number)
| JString (s : string).

#[global] Instance JsValue_eq_dec : EqDecision JsValue.
Proof. solve_decision. Defined.

Inductive JsError := TypeError (msg : string).

#[global] Instance JsError_eq_dec : EqDecision JsError.
Proof. solve_decision. Defined.

(** [a !== b] on primitive values. *)
Definition strict_neq (a b : JsValue) : bool := bool_decide (a ≠ b).

(** [o[k]]: reading a property that is not there gives [undefined]. *)
Definition prop (o : gmap string JsValue) (k : string) : JsValue :=
  default JUndefined (o !! k).

(** Results of code that can throw before it touches any state. *)
Inductive Result (A : Type) :=
| Return (a : A)
| Raise (e : JsError).
Arguments Return {A} a.
Arguments Raise {A} e.

Definition Result_bind {A B} (r : Result A) (k : A → Result B) : Result B :=
  match r with
  | Return a => k a
  | Raise e => Raise e
  end.

(** ** Underscore helpers *)

(** Modelled from the spec: underscore's [_.extend], [_.first], [_.last],
    [_.tail] and [_.initial] are library functions outside the sources.
    [_.extend({}, a, b)] copies [a] and then [b], so [b] wins on a shared
    key; [_.first] and [_.last] give [undefined] on an empty array;
    [_.tail] drops the first element and [_.initial] the last one. *)
Definition underscore_extend (a b : gmap string JsValue) : gmap string JsValue :=
  b ∪ a.

Definition underscore_first {A} (array : list A) : option A := head array.

Definition underscore_last {A} (array : list A) : option A := last array.

Definition underscore_tail {A} (array : list A) : list A := drop 1 array.

Definition underscore_initial {A} (array : list A) : list A :=
  take (length array - 1) array.

(** ** Objects of the mapping library *)

(** Modelled from the spec: the mapping library ([google.maps]) is an
    opaque capability provider outside the sources; its objects are kept
    as the constructor arguments and properties this module gives them. *)
Record LatLng := new_LatLng { lat : option number; lng : option number }.

Record LatLngBounds := new_LatLngBounds {
  getSouthWest : LatLng;
  getNorthEast : LatLng
}.

Inductive TravelMode := DRIVING | WALKING | BICYCLING | TRANSIT.

Record Waypoint := { location : LatLng }.

Record DirectionsRequest := {
  origin : LatLng;
  destination : LatLng;
  waypoints : list Waypoint;
  travelMode : TravelMode
}.

Inductive DirectionsResult := directions_result (routes : list (list LatLng)).

(** Modelled from the spec: [google.maps.DirectionsStatus.OK], the status
    of a successful routing request, is the string ["OK"]. *)
Definition DirectionsStatus_OK : string := "OK".

Inductive HeatmapDatum :=
| plain_location (p : LatLng)
| weighted_location (p : LatLng) (weight : option number).

#[global] Instance LatLng_eq_dec : EqDecision LatLng.
Proof. solve_decision. Defined.
#[global] Instance LatLngBounds_eq_dec : EqDecision LatLngBounds.
Proof. solve_decision. Defined.
#[global] Instance Waypoint_eq_dec : EqDecision Waypoint.
Proof. solve_decision. Defined.
#[global] Instance TravelMode_eq_dec : EqDecision TravelMode.
Proof. solve_decision. Defined.
#[global] Instance DirectionsRequest_eq_dec : EqDecision DirectionsRequest.
Proof. solve_decision. Defined.
#[global] Instance DirectionsResult_eq_dec : EqDecision DirectionsResult.
Proof. solve_decision. Defined.

(** ** Pure helpers of the module *)

(** [const [lat, lng] = x]: a missing position of the array gives
    [undefined], and destructuring [undefined] itself throws. *)
Definition destructure_point (x : option (list number)) : Result LatLng :=
  match x with
  | None => Raise (TypeError "undefined is not iterable")
  | Some array => Return (new_LatLng (array !! 0%nat) (array !! 1%nat))
  end.



(** *** DirectionsLayerView: the request *)

Definition DirectionsLayerView_getOrigin (modelData : list (list number))
  : Result LatLng :=
  destructure_point (underscore_first modelData).

Definition DirectionsLayerView_getDestination (modelData : list (list number))
  : Result LatLng :=
  destructure_point (underscore_last modelData).

Definition DirectionsLayerView_getWaypoints (modelData : list (list number))
  : list Waypoint :=
  let withoutFirst := underscore_tail modelData in
  let withoutLast := underscore_initial withoutFirst in
  let dataAsGoogle :=
    (λ p, {| location := new_LatLng (p !! 0%nat) (p !! 1%nat) |}) <$> withoutLast in
  dataAsGoogle.

(** The object literal [request] of [DirectionsLayerView.render]: its
    properties are evaluated in order, and the first throw wins. *)
Definition DirectionsLayerView_request (modelData : list (list number))
  : Result DirectionsRequest :=
  Result_bind (DirectionsLayerView_getOrigin modelData) (λ o,
  Result_bind (DirectionsLayerView_getDestination modelData) (λ d,
  Return {| origin := o;
            destination := d;
            waypoints := DirectionsLayerView_getWaypoints modelData;
            travelMode := DRIVING |})).

(** *** Heat map data *)

Definition SimpleHeatmapLayerView_getData (data : list (list number))
  : list HeatmapDatum :=
  (λ p, plain_location (new_LatLng (p !! 0%nat) (p !! 1%nat))) <$> data.

Definition WeightedHeatmapLayerView_getData (data : list (list number))
  : list HeatmapDatum :=
  (λ p, weighted_location (new_LatLng (p !! 0%nat) (p !! 1%nat)) (p !! 2%nat)) <$> data.

(** *** Model defaults *)

Definition GMapsLayerModel_defaults (WidgetModel_defaults : gmap string JsValue)
  : gmap string JsValue :=
  underscore_extend WidgetModel_defaults
    {[ "_view_name" := JString "GMapsLayerView";
       "_model_name" := JString "GMapsLayerModel";
       "_view_module" := JString "jupyter-gmaps";
       "_model_module" := JString "jupyter-gmaps" ]}.

Definition DirectionsLayerModel_defaults (WidgetModel_defaults : gmap string JsValue)
  : gmap string JsValue :=
  underscore_extend (GMapsLayerModel_defaults WidgetModel_defaults)
    {[ "_view_name" := JString "DirectionsLayerView";
       "_model_name" := JString "DirectionsLayerModel" ]}.

Definition SimpleHeatmapLayerModel_defaults (WidgetModel_defaults : gmap string JsValue)
  : gmap string JsValue :=
  underscore_extend (GMapsLayerModel_defaults WidgetModel_defaults)
    {[ "_view_name" := JString "SimpleHeatmapLayerView";
       "_model_name" := JString "SimpleHeatmapLayerModel" ]}.

Definition WeightedHeatmapLayerModel_defaults (WidgetModel_defaults : gmap string JsValue)
  : gmap string JsValue :=
  underscore_extend (GMapsLayerModel_defaults WidgetModel_defaults)
    {[ "_view_name" := JString "WeightedHeatmapLayerView";
       "_model_name" := JString "WeightedHeatmapLayerModel" ]}.

Definition PlainmapModel_defaults (DOMWidgetModel_defaults : gmap string JsValue)
  : gmap string JsValue :=
  underscore_extend DOMWidgetModel_defaults
    {[ "_view_name" := JString "PlainmapView";
       "_model_name" := JString "PlainmapModel";
       "_view_module" := JString "jupyter-gmaps";
       "_model_module" := JString "jupyter-gmaps";
       "width" := JString "600px";
       "height" := JString "400px" ]}.

(** ** The objects of the page *)

(** Models are named by the host; every other object is named by its
    position in the heap of its kind. *)
Abbreviation model_id := string (only parsing).
Abbreviation view_id := nat (only parsing).
Abbreviation heatmap_id := nat (only parsing).
Abbreviation renderer_id := nat (only parsing).
Abbreviation map_id := nat (only parsing).
Abbreviation promise_id := nat (only parsing).

(** *** Backbone events *)

(** The methods this module registers as event callbacks. *)
Inductive Callback :=
| cb_updateRadius
| cb_updateMaxIntensity
| cb_updateBounds.

(** The [this] a callback is registered with. *)
Inductive Context :=
| ctx_layer_view (v : view_id)
| ctx_map_view.

(** The events this module subscribes to: ["change:point_radius"],
    ["change:max_intensity"] and ["change:data_bounds"]. *)
Inductive EventName :=
| change_point_radius
| change_max_intensity
| change_data_bounds.

Record Listener := {
  l_event : EventName;
  l_callback : Callback;
  l_context : Context
}.

(** *** Models *)

(** A layer model: [data] is the sequence of coordinate tuples, the other
    attributes ([point_radius], [max_intensity], [layer_status], the
    defaults) are kept by name.  [host_attributes] is the host's replica
    of the attributes, as of the last push. *)
Record LayerModel := {
  data : list (list number);
  attributes : gmap string JsValue;
  host_attributes : gmap string JsValue;
  lm_listeners : list Listener
}.

(** The map model; [data_bounds] is [None] while the attribute is
    [undefined]. *)
Record MapModel := {
  mm_attributes : gmap string JsValue;
  data_bounds : option (list (list number));
  layers : list model_id;
  configuration : gmap string JsValue;
  mm_listeners : list Listener
}.

(** *** Views *)

Inductive ViewClass :=
| DirectionsLayerView
| SimpleHeatmapLayerView
| WeightedHeatmapLayerView.

(** A layer view.  [GMapsLayerView.initialize] stores [options.mapView]
    in [this.mapView]: it is the one map view of the world.  [lv_removed]
    is set once the view has been destroyed ([view.remove()]). *)
Record LayerView := {
  lv_class : ViewClass;
  lv_model : model_id;
  directionsDisplay : option renderer_id;
  response : option renderer_id;
  heatmap : option heatmap_id;
  lv_removed : bool
}.

(** An entry of the layer list synchronizer: the model and the promise of
    its view. *)
Record ViewEntry := {
  ve_model : model_id;
  ve_promise : promise_id
}.

(** The map view.  [displayed] holds the handlers registered for the
    view's own ["displayed"] event, each with the [initialBounds] its
    closure captured. *)
Record PlainmapView := {
  el_style : gmap string JsValue;
  layerViews : option (list ViewEntry);
  pv_map : option map_id;
  displayed : list (option (list (list number)))
}.

(** *** Primitives of the mapping library *)

Record HeatmapLayer := {
  hm_data : list HeatmapDatum;
  radius : JsValue;
  maxIntensity : JsValue;
  hm_map : option map_id
}.

Record DirectionsRenderer := {
  dr_map : option map_id;
  dr_directions : option (option DirectionsResult)
}.

(** *** The loader singleton *)

(** The callbacks this module hands to [GoogleMapsLoader.load]. *)
Inductive LoadCallback :=
| heatmap_loaded (v : view_id)
| map_loaded (initialBounds : option (list (list number))).

(** Modelled from the spec: [GoogleMapsLoader] is the loader of the
    external mapping library, a process-wide singleton outside the
    sources.  [KEY] and [LIBRARIES] are the two properties this module
    assigns; [google] tells whether the library handle is there;
    [callbacks] are the load callbacks waiting for it. *)
Record GoogleMapsLoader := {
  KEY : JsValue;
  LIBRARIES : list string;
  google : bool;
  callbacks : list LoadCallback
}.

(** *** Promises and jobs *)

(** The promise of a layer view, as the synchronizer holds it.  A pending
    promise remembers whether a removal was chained on it. *)
Inductive Promise :=
| pending (remove_chained : bool)
| fulfilled (v : view_id)
| rejected_with (e : JsError).

(** Promise reactions waiting in the job queue. *)
Inductive Job :=
| create_view_job (m : model_id) (p : promise_id)
| add_to_map_job (v : view_id) (p : promise_id)
| remove_job (v : view_id).

(** *** The trace *)

Inductive Effect :=
| console_log (s : string)
| touch (v : view_id)
| new_view (v : view_id) (m : model_id)
| view_removed (v : view_id)
| new_DirectionsRenderer (r : renderer_id) (on_map : option map_id)
| route_requested (v : view_id) (request : DirectionsRequest)
| setDirections (r : renderer_id) (result : option DirectionsResult)
| new_HeatmapLayer (h : heatmap_id)
| setMap (h : heatmap_id) (on_map : option map_id)
| heatmap_set (h : heatmap_id) (property : string) (value : JsValue)
| new_Map (m : map_id)
| fitBounds (m : map_id) (bounds : LatLngBounds)
| resize (m : option map_id)
| call_addToMapView (v : view_id)
| promise_rejected (p : promise_id) (e : JsError)
| uncaught (e : JsError).

(** *** The world *)

Record World := {
  loader : GoogleMapsLoader;
  layer_models : gmap model_id LayerModel;
  map_model : MapModel;
  map_view : PlainmapView;
  layer_views : list LayerView;
  heatmaps : list HeatmapLayer;
  renderers : list DirectionsRenderer;
  maps : nat;
  promises : list Promise;
  jobs : list Job;
  routes : list (view_id * DirectionsRequest);
  timers : nat;
  trace : list Effect
}.

#[global] Instance EventName_eq_dec : EqDecision EventName.
Proof. solve_decision. Defined.
#[global] Instance Callback_eq_dec : EqDecision Callback.
Proof. solve_decision. Defined.
#[global] Instance Context_eq_dec : EqDecision Context.
Proof. solve_decision. Defined.
#[global] Instance Listener_eq_dec : EqDecision Listener.
Proof. solve_decision. Defined.
#[global] Instance ViewClass_eq_dec : EqDecision ViewClass.
Proof. solve_decision. Defined.
#[global] Instance HeatmapDatum_eq_dec : EqDecision HeatmapDatum.
Proof. solve_decision. Defined.
#[global] Instance Effect_eq_dec : EqDecision Effect.
Proof. solve_decision. Defined.

(** Field updates. *)
Definition with_loader (x : GoogleMapsLoader) (w : World) : World :=
  {| loader := x; layer_models := layer_models w; map_model := map_model w;
     map_view := map_view w; layer_views := layer_views w; heatmaps := heatmaps w;
     renderers := renderers w; maps := maps w; promises := promises w;
     jobs := jobs w; routes := routes w; timers := timers w; trace := trace w |}.

Definition with_layer_models (x : gmap model_id LayerModel) (w : World) : World :=
  {| loader := loader w; layer_models := x; map_model := map_model w;
     map_view := map_view w; layer_views := layer_views w; heatmaps := heatmaps w;
     renderers := renderers w; maps := maps w; promises := promises w;
     jobs := jobs w; routes := routes w; timers := timers w; trace := trace w |}.

Definition with_map_model (x : MapModel) (w : World) : World :=
  {| loader := loader w; layer_models := layer_models w; map_model := x;
     map_view := map_view w; layer_views := layer_views w; heatmaps := heatmaps w;
     renderers := renderers w; maps := maps w; promises := promises w;
     jobs := jobs w; routes := routes w; timers := timers w; trace := trace w |}.

Definition with_map_view (x : PlainmapView) (w : World) : World :=
  {| loader := loader w; layer_models := layer_models w; map_model := map_model w;
     map_view := x; layer_views := layer_views w; heatmaps := heatmaps w;
     renderers := renderers w; maps := maps w; promises := promises w;
     jobs := jobs w; routes := routes w; timers := timers w; trace := trace w |}.

Definition with_layer_views (x : list LayerView) (w : World) : World :=
  {| loader := loader w; layer_models := layer_models w; map_model := map_model w;
     map_view := map_view w; layer_views := x; heatmaps := heatmaps w;
     renderers := renderers w; maps := maps w; promises := promises w;
     jobs := jobs w; routes := routes w; timers := timers w; trace := trace w |}.

Definition with_heatmaps (x : list HeatmapLayer) (w : World) : World :=
  {| loader := loader w; layer_models := layer_models w; map_model := map_model w;
     map_view := map_view w; layer_views := layer_views w; heatmaps := x;
     renderers := renderers w; maps := maps w; promises := promises w;
     jobs := jobs w; routes := routes w; timers := timers w; trace := trace w |}.

Definition with_renderers (x : list DirectionsRenderer) (w : World) : World :=
  {| loader := loader w; layer_models := layer_models w; map_model := map_model w;
     map_view := map_view w; layer_views := layer_views w; heatmaps := heatmaps w;
     renderers := x; maps := maps w; promises := promises w;
     jobs := jobs w; routes := routes w; timers := timers w; trace := trace w |}.

Definition with_maps (x : nat) (w : World) : World :=
  {| loader := loader w; layer_models := layer_models w; map_model := map_model w;
     map_view := map_view w; layer_views := layer_views w; heatmaps := heatmaps w;
     renderers := renderers w; maps := x; promises := promises w;
     jobs := jobs w; routes := routes w; timers := timers w; trace := trace w |}.

Definition with_promises (x : list Promise) (w : World) : World :=
  {| loader := loader w; layer_models := layer_models w; map_model := map_model w;
     map_view := map_view w; layer_views := layer_views w; heatmaps := heatmaps w;
     renderers := renderers w; maps := maps w; promises := x;
     jobs := jobs w; routes := routes w; timers := timers w; trace := trace w |}.

Definition with_jobs (x : list Job) (w : World) : World :=
  {| loader := loader w; layer_models := layer_models w; map_model := map_model w;
     map_view := map_view w; layer_views := layer_views w; heatmaps := heatmaps w;
     renderers := renderers w; maps := maps w; promises := promises w;
     jobs := x; routes := routes w; timers := timers w; trace := trace w |}.

Definition with_routes (x : list (view_id * DirectionsRequest)) (w : World) : World :=
  {| loader := loader w; layer_models := layer_models w; map_model := map_model w;
     map_view := map_view w; layer_views := layer_views w; heatmaps := heatmaps w;
     renderers := renderers w; maps := maps w; promises := promises w;
     jobs := jobs w; routes := x; timers := timers w; trace := trace w |}.

Definition with_timers (x : nat) (w : World) : World :=
  {| loader := loader w; layer_models := layer_models w; map_model := map_model w;
     map_view := map_view w; layer_views := layer_views w; heatmaps := heatmaps w;
     renderers := renderers w; maps := maps w; promises := promises w;
     jobs := jobs w; routes := routes w; timers := x; trace := trace w |}.

Definition with_trace (x : list Effect) (w : World) : World :=
  {| loader := loader w; layer_models := layer_models w; map_model := map_model w;
     map_view := map_view w; layer_views := layer_views w; heatmaps := heatmaps w;
     renderers := renderers w; maps := maps w; promises := promises w;
     jobs := jobs w; routes := routes w; timers := timers w; trace := x |}.

(** ** The state and exception monad *)

(** A throw keeps the state reached so far: assignments made before the
    throw stay made. *)
Inductive Outcome (A : Type) :=
| Ok (a : A) (w : World)
| Throw (e : JsError) (w : World).
Arguments Ok {A} a w.
Arguments Throw {A} e w.

Definition M (A : Type) : Type := World → Outcome A.

Definition ret {A} (a : A) : M A := λ w, Ok a w.

Definition bind {A B} (m : M A) (k : A → M B) : M B :=
  λ w, match m w with
       | Ok a w' => k a w'
       | Throw e w' => Throw e w'
       end.

Definition throw {A} (e : JsError) : M A := λ w, Throw e w.

Definition gets {A} (f : World → A) : M A := λ w, Ok (f w) w.

Definition modify (f : World → World) : M unit := λ w, Ok tt (f w).

Notation "'do' x <- m ; k" := (bind m (λ x, k))
  (at level 20, x name, m at level 100, k at level 200).
Notation "m ;; k" := (bind m (λ _, k))
  (at level 100, k at level 200, right associativity).

(** Reading through something that is [undefined] throws. *)
Definition deref {A} (what : string) (o : option A) : M A :=
  match o with
  | Some a => ret a
  | None => throw (TypeError what)
  end.

Definition lift {A} (r : Result A) : M A :=
  match r with
  | Return a => ret a
  | Raise e => throw e
  end.

Definition emit (e : Effect) : M unit :=
  modify (λ w, with_trace (trace w ++ [e]) w).

(** [try { m } catch (e) { handler e }] *)
Definition try_catch {A} (m : M A) (handler : JsError → M A) : M A :=
  λ w, match m w with
       | Ok a w' => Ok a w'
       | Throw e w' => handler e w'
       end.

(** The world an outcome leaves behind. *)
Definition world_of {A} (o : Outcome A) : World :=
  match o with
  | Ok _ w => w
  | Throw _ w => w
  end.

(** ** Record updates of the smaller objects *)

Definition with_KEY (x : JsValue) (l : GoogleMapsLoader) : GoogleMapsLoader :=
  {| KEY := x; LIBRARIES := LIBRARIES l; google := google l; callbacks := callbacks l |}.

Definition with_LIBRARIES (x : list string) (l : GoogleMapsLoader) : GoogleMapsLoader :=
  {| KEY := KEY l; LIBRARIES := x; google := google l; callbacks := callbacks l |}.

Definition with_google (x : bool) (l : GoogleMapsLoader) : GoogleMapsLoader :=
  {| KEY := KEY l; LIBRARIES := LIBRARIES l; google := x; callbacks := callbacks l |}.

Definition with_callbacks (x : list LoadCallback) (l : GoogleMapsLoader) : GoogleMapsLoader :=
  {| KEY := KEY l; LIBRARIES := LIBRARIES l; google := google l; callbacks := x |}.

Definition with_attributes (x : gmap string JsValue) (m : LayerModel) : LayerModel :=
  {| data := data m; attributes := x; host_attributes := host_attributes m;
     lm_listeners := lm_listeners m |}.

Definition with_host_attributes (x : gmap string JsValue) (m : LayerModel) : LayerModel :=
  {| data := data m; attributes := attributes m; host_attributes := x;
     lm_listeners := lm_listeners m |}.

Definition with_lm_listeners (x : list Listener) (m : LayerModel) : LayerModel :=
  {| data := data m; attributes := attributes m; host_attributes := host_attributes m;
     lm_listeners := x |}.

Definition with_data_bounds (x : option (list (list number))) (m : MapModel) : MapModel :=
  {| mm_attributes := mm_attributes m; data_bounds := x; layers := layers m;
     configuration := configuration m; mm_listeners := mm_listeners m |}.

Definition with_layers (x : list model_id) (m : MapModel) : MapModel :=
  {| mm_attributes := mm_attributes m; data_bounds := data_bounds m; layers := x;
     configuration := configuration m; mm_listeners := mm_listeners m |}.

Definition with_mm_listeners (x : list Listener) (m : MapModel) : MapModel :=
  {| mm_attributes := mm_attributes m; data_bounds := data_bounds m; layers := layers m;
     configuration := configuration m; mm_listeners := x |}.

Definition with_directionsDisplay (x : option renderer_id) (v : LayerView) : LayerView :=
  {| lv_class := lv_class v; lv_model := lv_model v; directionsDisplay := x;
     response := response v; heatmap := heatmap v; lv_removed := lv_removed v |}.

Definition with_response (x : option renderer_id) (v : LayerView) : LayerView :=
  {| lv_class := lv_class v; lv_model := lv_model v;
     directionsDisplay := directionsDisplay v;
     response := x; heatmap := heatmap v; lv_removed := lv_removed v |}.

Definition with_heatmap (x : option heatmap_id) (v : LayerView) : LayerView :=
  {| lv_class := lv_class v; lv_model := lv_model v;
     directionsDisplay := directionsDisplay v;
     response := response v; heatmap := x; lv_removed := lv_removed v |}.

Definition with_lv_removed (x : bool) (v : LayerView) : LayerView :=
  {| lv_class := lv_class v; lv_model := lv_model v;
     directionsDisplay := directionsDisplay v;
     response := response v; heatmap := heatmap v; lv_removed := x |}.

Definition with_el_style (x : gmap string JsValue) (v : PlainmapView) : PlainmapView :=
  {| el_style := x; layerViews := layerViews v; pv_map := pv_map v;
     displayed := displayed v |}.

Definition with_layerViews (x : option (list ViewEntry)) (v : PlainmapView) : PlainmapView :=
  {| el_style := el_style v; layerViews := x; pv_map := pv_map v;
     displayed := displayed v |}.

Definition with_pv_map (x : option map_id) (v : PlainmapView) : PlainmapView :=
  {| el_style := el_style v; layerViews := layerViews v; pv_map := x;
     displayed := displayed v |}.

Definition with_displayed (x : list (option (list (list number)))) (v : PlainmapView)
  : PlainmapView :=
  {| el_style := el_style v; layerViews := layerViews v; pv_map := pv_map v;
     displayed := x |}.

(** ** Heap access *)

Definition get_layer_view (v : view_id) : M LayerView :=
  do vs <- gets layer_views; deref "view" (vs !! v).

Definition put_layer_view (v : view_id) (x : LayerView) : M unit :=
  modify (λ w, with_layer_views (<[v := x]> (layer_views w)) w).

Definition get_layer_model (m : model_id) : M LayerModel :=
  do ms <- gets layer_models; deref "model" (ms !! m).

Definition put_layer_model (m : model_id) (x : LayerModel) : M unit :=
  modify (λ w, with_layer_models (<[m := x]> (layer_models w)) w).

Definition put_map_model (x : MapModel) : M unit := modify (with_map_model x).

Definition put_map_view (x : PlainmapView) : M unit := modify (with_map_view x).

Definition enqueue (j : Job) : M unit :=
  modify (λ w, with_jobs (jobs w ++ [j]) w).

(** ** The mapping library's primitives *)

(** Modelled from the spec: constructors and methods of the external
    mapping library (density overlay, route renderer, map surface).  Each
    keeps what it is given and is recorded in the trace. *)
Definition new_HeatmapLayer_ (options : HeatmapLayer) : M heatmap_id :=
  do hs <- gets heatmaps;
  let h := length hs in
  modify (with_heatmaps (hs ++ [options])) ;;
  emit (new_HeatmapLayer h) ;;
  ret h.

Definition HeatmapLayer_setMap (h : heatmap_id) (on_map : option map_id) : M unit :=
  do hs <- gets heatmaps;
  do x <- deref "heatmap" (hs !! h);
  modify (with_heatmaps
    (<[h := {| hm_data := hm_data x; radius := radius x;
               maxIntensity := maxIntensity x; hm_map := on_map |}]> hs)) ;;
  emit (setMap h on_map).

Definition set_property (x : HeatmapLayer) (property : string) (value : JsValue)
  : HeatmapLayer :=
  if decide (property = "radius") then
    {| hm_data := hm_data x; radius := value;
       maxIntensity := maxIntensity x; hm_map := hm_map x |}
  else if decide (property = "maxIntensity") then
    {| hm_data := hm_data x; radius := radius x;
       maxIntensity := value; hm_map := hm_map x |}
  else x.

Definition get_property (x : HeatmapLayer) (property : string) : JsValue :=
  if decide (property = "radius") then radius x
  else if decide (property = "maxIntensity") then maxIntensity x
  else JUndefined.

Definition HeatmapLayer_set (h : heatmap_id) (property : string) (value : JsValue)
  : M unit :=
  do hs <- gets heatmaps;
  do x <- deref "heatmap" (hs !! h);
  modify (with_heatmaps (<[h := set_property x property value]> hs)) ;;
  emit (heatmap_set h property value).

Definition new_DirectionsRenderer_ (on_map : option map_id) : M renderer_id :=
  do rs <- gets renderers;
  let r := length rs in
  modify (with_renderers (rs ++ [{| dr_map := on_map; dr_directions := None |}])) ;;
  emit (new_DirectionsRenderer r on_map) ;;
  ret r.

Definition DirectionsRenderer_setDirections (r : renderer_id)
    (result : option DirectionsResult) : M unit :=
  do rs <- gets renderers;
  do x <- deref "directionsDisplay" (rs !! r);
  modify (with_renderers
    (<[r := {| dr_map := dr_map x; dr_directions := Some result |}]> rs)) ;;
  emit (setDirections r result).

Definition new_Map_ : M map_id :=
  do m <- gets maps;
  modify (with_maps (S m)) ;;
  emit (new_Map m) ;;
  ret m.

(** Modelled from the spec: the asynchronous directions-routing service.
    [route] only records the request; its callback runs when the service
    answers (see [RouteDone] below). *)
Definition DirectionsService_route (v : view_id) (request : DirectionsRequest)
  : M unit :=
  modify (λ w, with_routes (routes w ++ [(v, request)]) w) ;;
  emit (route_requested v request).

(** Modelled from the spec: [GoogleMapsLoader.load(callback)] of the
    external loader.  The callback runs at once when the library handle is
    already there, and otherwise waits until the load completes (see
    [LibraryLoaded] below).  [now] is the body of [callback]. *)
Definition GoogleMapsLoader_load (callback : LoadCallback) (now : M unit) : M unit :=
  do l <- gets loader;
  if google l then now
  else modify (with_loader (with_callbacks (callbacks l ++ [callback]) l)).

(** ** Heat map views: the partial updates *)

Definition HeatmapLayerBaseView_updateRadius (this : view_id) : M unit :=
  do view <- get_layer_view this;
  do h <- deref "heatmap" (heatmap view);
  do model <- get_layer_model (lv_model view);
  HeatmapLayer_set h "radius" (prop (attributes model) "point_radius").

Definition HeatmapLayerBaseView_updateMaxIntensity (this : view_id) : M unit :=
  do view <- get_layer_view this;
  do h <- deref "heatmap" (heatmap view);
  do model <- get_layer_model (lv_model view);
  HeatmapLayer_set h "maxIntensity" (prop (attributes model) "max_intensity").

(** ** Map view: the viewport *)

(** [const [[latBL, lngBL], [latTR, lngTR]] = this.model.get("data_bounds")]
    followed by the construction of the bounds object. *)
Definition destructure_bounds (b : option (list (list number))) : Result LatLngBounds :=
  match b with
  | None => Raise (TypeError "undefined is not iterable")
  | Some pairs =>
      Result_bind (destructure_point (pairs !! 0%nat)) (λ boundBL,
      Result_bind (destructure_point (pairs !! 1%nat)) (λ boundTR,
      Return (new_LatLngBounds boundBL boundTR)))
  end.

Definition PlainmapView_updateBounds : M unit :=
  do model <- gets map_model;
  do bounds <- lift (destructure_bounds (data_bounds model));
  do view <- gets map_view;
  do m <- deref "map" (pv_map view);
  emit (fitBounds m bounds).

(** ** The attribute store of the widget framework *)

(** Modelled from the spec: the widget framework's model (attribute
    get/set, change subscriptions, "touch" to push changes) is outside the
    sources.  [on] appends a subscription; [set] stores the value and,
    when the value differs from the stored one, notifies the subscribers
    of that attribute's change event in subscription order, each callback
    running on the [this] it was registered with; a throwing callback
    ends the notification; [touch] pushes the attributes to the host. *)
Definition Model_on (listeners : list Listener) (event : EventName)
    (callback : Callback) (context : Context) : list Listener :=
  listeners ++ [{| l_event := event; l_callback := callback; l_context := context |}].

Definition run_callback (callback : Callback) (context : Context) : M unit :=
  match callback, context with
  | cb_updateRadius, ctx_layer_view v => HeatmapLayerBaseView_updateRadius v
  | cb_updateMaxIntensity, ctx_layer_view v => HeatmapLayerBaseView_updateMaxIntensity v
  | cb_updateBounds, ctx_map_view => PlainmapView_updateBounds
  | _, _ => throw (TypeError "callback is not a method of this view")
  end.

Fixpoint trigger (listeners : list Listener) (event : EventName) : M unit :=
  match listeners with
  | [] => ret tt
  | l :: rest =>
      (if decide (l_event l = event)
       then run_callback (l_callback l) (l_context l)
       else ret tt) ;;
      trigger rest event
  end.

Definition event_of_attribute (name : string) : option EventName :=
  if decide (name = "point_radius") then Some change_point_radius
  else if decide (name = "max_intensity") then Some change_max_intensity
  else if decide (name = "data_bounds") then Some change_data_bounds
  else None.

Definition LayerModel_set (m : model_id) (name : string) (value : JsValue) : M unit :=
  do model <- get_layer_model m;
  if decide (prop (attributes model) name = value) then ret tt
  else
    put_layer_model m (with_attributes (<[name := value]> (attributes model)) model) ;;
    match event_of_attribute name with
    | Some event => trigger (lm_listeners model) event
    | None => ret tt
    end.

Definition MapModel_set_data_bounds (value : list (list number)) : M unit :=
  do model <- gets map_model;
  if decide (data_bounds model = Some value) then ret tt
  else
    put_map_model (with_data_bounds (Some value) model) ;;
    trigger (mm_listeners model) change_data_bounds.

Definition WidgetView_touch (this : view_id) : M unit :=
  do view <- get_layer_view this;
  do model <- get_layer_model (lv_model view);
  put_layer_model (lv_model view) (with_host_attributes (attributes model) model) ;;
  emit (touch this).

(** ** Heat map views *)

Definition HeatmapLayerBaseView_modelEvents (this : view_id) : M unit :=
  do view <- get_layer_view this;
  do model <- get_layer_model (lv_model view);
  let model1 :=
    with_lm_listeners
      (Model_on (lm_listeners model) change_point_radius cb_updateRadius
         (ctx_layer_view this)) model in
  let model2 :=
    with_lm_listeners
      (Model_on (lm_listeners model1) change_max_intensity cb_updateMaxIntensity
         (ctx_layer_view this)) model1 in
  put_layer_model (lv_model view) model2.

(** [this.getData()]: each heat map class brings its own; the other
    classes have none. *)
Definition LayerView_getData (this : view_id) : M (list HeatmapDatum) :=
  do view <- get_layer_view this;
  do model <- get_layer_model (lv_model view);
  match lv_class view with
  | SimpleHeatmapLayerView => ret (SimpleHeatmapLayerView_getData (data model))
  | WeightedHeatmapLayerView => ret (WeightedHeatmapLayerView_getData (data model))
  | DirectionsLayerView => throw (TypeError "this.getData is not a function")
  end.

(** The callback [HeatmapLayerBaseView.render] hands to the loader. *)
Definition HeatmapLayerBaseView_loaded (this : view_id) : M unit :=
  do dataAsGoogle <- LayerView_getData this;
  do view <- get_layer_view this;
  do model <- get_layer_model (lv_model view);
  do h <- new_HeatmapLayer_
            {| hm_data := dataAsGoogle;
               radius := prop (attributes model) "point_radius";
               maxIntensity := prop (attributes model) "max_intensity";
               hm_map := None |};
  do view <- get_layer_view this;
  put_layer_view this (with_heatmap (Some h) view).

Definition HeatmapLayerBaseView_render (this : view_id) : M unit :=
  HeatmapLayerBaseView_modelEvents this ;;
  GoogleMapsLoader_load (heatmap_loaded this) (HeatmapLayerBaseView_loaded this).

Definition HeatmapLayerBaseView_addToMapView (this : view_id) : M unit :=
  do view <- get_layer_view this;
  do h <- deref "heatmap" (heatmap view);
  do mapView <- gets map_view;
  HeatmapLayer_setMap h (pv_map mapView).

(** [get_data() {}]: an empty method, never called. *)
Definition HeatmapLayerBaseView_get_data (this : view_id) : M unit := ret tt.

(** ** Directions view *)

Definition DirectionsLayerView_render (this : view_id) : M unit :=
  do mapView <- gets map_view;
  let rendererOptions := pv_map mapView in
  do r <- new_DirectionsRenderer_ rendererOptions;
  do view <- get_layer_view this;
  put_layer_view this (with_directionsDisplay (Some r) view) ;;
  do model <- get_layer_model (lv_model view);
  let modelData := data model in
  do request <- lift (DirectionsLayerView_request modelData);
  DirectionsService_route this request.

(** The callback [DirectionsLayerView.render] hands to the routing
    service. *)
Definition DirectionsLayerView_routed (this : view_id)
    (result : option DirectionsResult) (status : string) : M unit :=
  emit (console_log ("Direction service returned: " ++ status)) ;;
  do view <- get_layer_view this;
  LayerModel_set (lv_model view) "layer_status" (JString status) ;;
  WidgetView_touch this ;;
  if decide (status = DirectionsStatus_OK) then
    do view <- get_layer_view this;
    put_layer_view this (with_response (directionsDisplay view) view) ;;
    do r <- deref "directionsDisplay" (directionsDisplay view);
    DirectionsRenderer_setDirections r result
  else ret tt.

Definition DirectionsLayerView_addToMapView (this : view_id) : M unit := ret tt.

(** ** Method dispatch on the class of a layer view *)

Definition LayerView_render (this : view_id) : M unit :=
  do view <- get_layer_view this;
  match lv_class view with
  | DirectionsLayerView => DirectionsLayerView_render this
  | SimpleHeatmapLayerView | WeightedHeatmapLayerView =>
      HeatmapLayerBaseView_render this
  end.

Definition LayerView_addToMapView (this : view_id) : M unit :=
  emit (call_addToMapView this) ;;
  do view <- get_layer_view this;
  match lv_class view with
  | DirectionsLayerView => DirectionsLayerView_addToMapView this
  | SimpleHeatmapLayerView | WeightedHeatmapLayerView =>
      HeatmapLayerBaseView_addToMapView this
  end.

(** The view class a model asks for through its [_view_name]. *)
Definition view_class_of (model : LayerModel) : option ViewClass :=
  match prop (attributes model) "_view_name" with
  | JString name =>
      if decide (name = "DirectionsLayerView") then Some DirectionsLayerView
      else if decide (name = "SimpleHeatmapLayerView") then Some SimpleHeatmapLayerView
      else if decide (name = "WeightedHeatmapLayerView") then Some WeightedHeatmapLayerView
      else None
  | _ => None
  end.

(** ** Promises of layer views *)

(** Modelled from the spec: the widget framework creates a child view by
    model reference and hands back a promise of it (outside the sources).
    The promise is settled by jobs taken from a first-in first-out queue:
    [create_view_job] builds the view for the model's [_view_name] and
    calls its [render]; when [render] has returned, the reaction
    registered with [then] is queued ([add_to_map_job]); a throw on the
    way rejects the promise. *)
Definition new_promise : M promise_id :=
  do ps <- gets promises;
  modify (with_promises (ps ++ [pending false])) ;;
  ret (length ps).

Definition settle (p : promise_id) (x : Promise) : M unit :=
  modify (λ w, with_promises (<[p := x]> (promises w)) w).

Definition reject (p : promise_id) (e : JsError) : M unit :=
  settle p (rejected_with e) ;;
  emit (promise_rejected p e).

Definition fulfil (p : promise_id) (v : view_id) : M unit :=
  do ps <- gets promises;
  match ps !! p with
  | Some (pending true) => settle p (fulfilled v) ;; enqueue (remove_job v)
  | _ => settle p (fulfilled v)
  end.

Definition WidgetView_create_child_view (child_model : model_id) : M promise_id :=
  do p <- new_promise;
  enqueue (create_view_job child_model p) ;;
  ret p.

Definition WidgetManager_create_view (m : model_id) : M view_id :=
  do model <- get_layer_model m;
  do cls <- deref "view class" (view_class_of model);
  do vs <- gets layer_views;
  let v := length vs in
  modify (with_layer_views
    (vs ++ [{| lv_class := cls; lv_model := m; directionsDisplay := None;
               response := None; heatmap := None; lv_removed := false |}])) ;;
  emit (new_view v m) ;;
  LayerView_render v ;;
  ret v.

(** Modelled from the spec: destroying a view ([view.remove()] of the
    framework) marks it torn down; nothing else of it is touched. *)
Definition View_remove (v : view_id) : M unit :=
  do view <- get_layer_view v;
  put_layer_view v (with_lv_removed true view) ;;
  emit (view_removed v).

(** ** Map view: adding a layer *)

(** [addLayerModel]: the promise of the child view, with the reaction
    below chained on it. *)
Definition PlainmapView_addLayerModel (childModel : model_id) : M promise_id :=
  WidgetView_create_child_view childModel.

(** The reaction [(childView) => { childView.addToMapView(this); return
    childView }] of [addLayerModel]. *)
Definition PlainmapView_addLayerModel_then (childView : view_id) : M view_id :=
  LayerView_addToMapView childView ;;
  ret childView.

Definition run_job (j : Job) : M unit :=
  match j with
  | create_view_job m p =>
      try_catch
        (do v <- WidgetManager_create_view m; enqueue (add_to_map_job v p))
        (reject p)
  | add_to_map_job v p =>
      try_catch
        (do childView <- PlainmapView_addLayerModel_then v; fulfil p childView)
        (reject p)
  | remove_job v => View_remove v
  end.

(** ** The layer list synchronizer *)

Fixpoint for_each {A} (f : A → M unit) (l : list A) : M unit :=
  match l with
  | [] => ret tt
  | x :: rest => f x ;; for_each f rest
  end.

Fixpoint map_M {A B} (f : A → M B) (l : list A) : M (list B) :=
  match l with
  | [] => ret []
  | x :: rest => do y <- f x; do ys <- map_M f rest; ret (y :: ys)
  end.

(** The removal chained on the promise of a view that left the list. *)
Definition then_remove (p : promise_id) : M unit :=
  do ps <- gets promises;
  match ps !! p with
  | Some (pending _) => settle p (pending true)
  | Some (fulfilled v) => enqueue (remove_job v)
  | _ => ret tt
  end.

(** Modelled from the spec: the layer list synchronizer
    ([widgets.ViewList], built by [PlainmapView.render] with
    [addLayerModel] as its add handler and the default remove handler) is
    outside the sources.  Given the rendered entries and the current
    [layers] sequence it applies the minimal add/remove delta by
    reference: entries whose model left the sequence are destroyed, a
    view is added (through the add handler, in sequence order) for each
    model of the sequence that has no entry, all other entries are kept. *)
Definition ViewList_update (new_models : list model_id) : M unit :=
  do mapView <- gets map_view;
  do views <- deref "layerViews" (layerViews mapView);
  let removed := filter (λ e, ve_model e ∉ new_models) views in
  let kept := filter (λ e, ve_model e ∈ new_models) views in
  let added := filter (λ m, m ∉ (ve_model <$> views)) new_models in
  for_each then_remove (ve_promise <$> removed) ;;
  do created <- map_M (λ m, do p <- PlainmapView_addLayerModel m;
                            ret {| ve_model := m; ve_promise := p |}) added;
  do mapView <- gets map_view;
  put_map_view (with_layerViews (Some (kept ++ created)%list) mapView).

(** ** Map view *)

Definition PlainmapView_modelEvents : M unit :=
  do model <- gets map_model;
  put_map_model
    (with_mm_listeners
       (Model_on (mm_listeners model) change_data_bounds cb_updateBounds ctx_map_view)
       model).

(** The callback the ["displayed"] handler hands to the loader.  The
    call [this.updateBounds(initialBounds)] passes an argument that
    [updateBounds] does not take. *)
Definition PlainmapView_loaded (initialBounds : option (list (list number))) : M unit :=
  do m <- new_Map_;
  do view <- gets map_view;
  put_map_view (with_pv_map (Some m) view) ;;
  PlainmapView_updateBounds ;;
  do model <- gets map_model;
  ViewList_update (layers model) ;;
  modify (λ w, with_timers (S (timers w)) w).

(** The ["displayed"] handler registered by [render]. *)
Definition PlainmapView_displayed (initialBounds : option (list (list number)))
  : M unit :=
  GoogleMapsLoader_load (map_loaded initialBounds) (PlainmapView_loaded initialBounds).

(** The forced redraw, one second after the map was built. *)
Definition PlainmapView_redraw : M unit :=
  do view <- gets map_view;
  emit (resize (pv_map view)).

Section Configured.

(** [GoogleMapsLoader.release()] belongs to the external loader; what it
    does to the loader is left open. *)
Variable release : GoogleMapsLoader → GoogleMapsLoader.

Definition reloadGoogleMaps (configuration : gmap string JsValue)
    (l : GoogleMapsLoader) : GoogleMapsLoader :=
  let l1 := release l in
  let l2 := with_LIBRARIES ["visualization"] l1 in
  if strict_neq (prop configuration "api_key") JNull &&
     strict_neq (prop configuration "api_key") JUndefined
  then with_KEY (prop configuration "api_key") l2
  else l2.

(** [reloadGoogleMaps({})], run once when the module is loaded. *)
Definition module_loaded (l : GoogleMapsLoader) : GoogleMapsLoader :=
  reloadGoogleMaps ∅ l.

Definition ConfigurationMixin_loadConfiguration : M unit :=
  do model <- gets map_model;
  let modelConfiguration := configuration model in
  modify (λ w, with_loader (reloadGoogleMaps modelConfiguration (loader w)) w).

Definition PlainmapView_render : M unit :=
  ConfigurationMixin_loadConfiguration ;;
  do model <- gets map_model;
  do view <- gets map_view;
  put_map_view
    (with_el_style (<["width" := prop (mm_attributes model) "width"]> (el_style view))
       view) ;;
  do view <- gets map_view;
  put_map_view
    (with_el_style (<["height" := prop (mm_attributes model) "height"]> (el_style view))
       view) ;;
  let initialBounds := data_bounds model in
  do view <- gets map_view;
  put_map_view (with_layerViews (Some []) view) ;;
  PlainmapView_modelEvents ;;
  do view <- gets map_view;
  put_map_view (with_displayed (displayed view ++ [initialBounds]) view).

(** ** The event loop *)

(** What can happen to the page, one event at a time. *)
Inductive Event :=
| Render
| Displayed
| LibraryLoaded
| RunJob
| RouteDone (v : view_id) (result : option DirectionsResult) (status : string)
| Timeout
| SetLayerAttribute (m : model_id) (name : string) (value : JsValue)
| SetDataBounds (value : list (list number))
| SetLayers (value : list model_id)
| Configure (configuration : gmap string JsValue)
| Remove (v : view_id).

Definition run_load_callback (callback : LoadCallback) : M unit :=
  match callback with
  | heatmap_loaded v => HeatmapLayerBaseView_loaded v
  | map_loaded initialBounds => PlainmapView_loaded initialBounds
  end.

(** Modelled from the spec: the external library finished loading; the
    handle is there and the waiting load callbacks run in order. *)
Definition library_loaded : M unit :=
  do l <- gets loader;
  modify (with_loader (with_callbacks [] (with_google true l))) ;;
  for_each run_load_callback (callbacks l).

(** The routing service answers the oldest outstanding request of [v]. *)
Definition route_done (v : view_id) (result : option DirectionsResult)
    (status : string) : M unit :=
  do rs <- gets routes;
  match list_find (λ r, r.1 = v) rs with
  | Some (i, _) =>
      modify (with_routes (delete i rs)) ;;
      DirectionsLayerView_routed v result status
  | None => ret tt
  end.

Definition step (e : Event) : M unit :=
  match e with
  | Render => PlainmapView_render
  | Displayed =>
      do view <- gets map_view;
      for_each PlainmapView_displayed (displayed view)
  | LibraryLoaded => library_loaded
  | RunJob =>
      do js <- gets jobs;
      match js with
      | [] => ret tt
      | j :: rest => modify (with_jobs rest) ;; run_job j
      end
  | RouteDone v result status => route_done v result status
  | Timeout =>
      do n <- gets timers;
      match n with
      | O => ret tt
      | S n' => modify (with_timers n') ;; PlainmapView_redraw
      end
  | SetLayerAttribute m name value => LayerModel_set m name value
  | SetDataBounds value => MapModel_set_data_bounds value
  | SetLayers value =>
      do model <- gets map_model;
      put_map_model (with_layers value model)
  | Configure configuration =>
      modify (λ w, with_loader (reloadGoogleMaps configuration (loader w)) w)
  | Remove v => View_remove v
  end.

(** An event handler that throws leaves an uncaught error behind. *)
Definition dispatch (w : World) (e : Event) : World :=
  match step e w with
  | Ok _ w' => w'
  | Throw err w' => with_trace (trace w' ++ [uncaught err]) w'
  end.

Definition run (events : list Event) (w : World) : World :=
  foldl dispatch w events.

End Configured.

(** ** A sample page *)

(** A release that only gives up the library handle. *)
Definition release_handle (l : GoogleMapsLoader) : GoogleMapsLoader :=
  with_google false l.

Definition sample_heatmap_model : LayerModel :=
  {| data := [[51.5; -0.1]; [51.6; 0.1]]%Q;
     attributes :=
       <["point_radius" := JNumber 8%Q]>
         (<["max_intensity" := JNull]> (SimpleHeatmapLayerModel_defaults ∅));
     host_attributes := ∅;
     lm_listeners := [] |}.

Definition sample_weighted_model : LayerModel :=
  {| data := [[51.5; -0.1; 2]; [51.6; 0.1; 3]]%Q;
     attributes :=
       <["point_radius" := JNumber 5%Q]>
         (<["max_intensity" := JNumber 100%Q]> (WeightedHeatmapLayerModel_defaults ∅));
     host_attributes := ∅;
     lm_listeners := [] |}.

Definition sample_directions_model : LayerModel :=
  {| data := [[51.5; -0.1]; [51.55; 0]; [51.6; 0.1]]%Q;
     attributes := DirectionsLayerModel_defaults ∅;
     host_attributes := ∅;
     lm_listeners := [] |}.

Definition sample_map_model : MapModel :=
  {| mm_attributes := PlainmapModel_defaults ∅;
     data_bounds := Some [[51.4; -0.3]; [51.7; 0.3]]%Q;
     layers := ["heatmap-1"; "directions-1"; "heatmap-2"];
     configuration := {[ "api_key" := JString "AIza-sample" ]};
     mm_listeners := [] |}.

(** The page before the map view is rendered. *)
Definition sample_world : World :=
  {| loader := {| KEY := JNull; LIBRARIES := []; google := false; callbacks := [] |};
     layer_models :=
       {[ "heatmap-1" := sample_heatmap_model;
          "directions-1" := sample_directions_model;
          "heatmap-2" := sample_weighted_model ]};
     map_model := sample_map_model;
     map_view := {| el_style := ∅; layerViews := None; pv_map := None; displayed := [] |};
     layer_views := [];
     heatmaps := [];
     renderers := [];
     maps := 0;
     promises := [];
     jobs := [];
     routes := [];
     timers := 0;
     trace := [] |}.

(** The map view rendered, displayed and loaded; the three layer views
    created and added. *)
Definition sample_events : list Event :=
  [Render; Displayed; LibraryLoaded; RunJob; RunJob; RunJob; RunJob; RunJob; RunJob].

Definition sample_page : World := run release_handle sample_events sample_world.

(** ** Notions used in the statements *)

(** The point a coordinate tuple [[lat, lng]] stands for. *)
Definition coordinates (p : list number) : LatLng :=
  new_LatLng (p !! 0%nat) (p !! 1%nat).

(** A request is well formed for a data list when its origin, waypoints
    and destination, in this order, are exactly the points of the list. *)
Definition well_formed (modelData : list (list number)) (request : DirectionsRequest)
  : Prop :=
  coordinates <$> modelData =
  origin request :: (location <$> waypoints request) ++ [destination request].

(** Modelled from the spec: the framework's model constructor is outside
    the sources; a freshly constructed map model holds the defaults of its
    class and nothing else. *)
Definition new_PlainmapModel (DOMWidgetModel_defaults : gmap string JsValue)
  : MapModel :=
  {| mm_attributes := PlainmapModel_defaults DOMWidgetModel_defaults;
     data_bounds := None;
     layers := [];
     configuration := ∅;
     mm_listeners := [] |}.

(** The partial updates of a heat map: the model attribute, its change
    event, the callback [modelEvents] registers for it, and the property
    of the primitive the callback sets. *)
Inductive partial_update : string → EventName → Callback → string → Prop :=
| update_radius :
    partial_update "point_radius" change_point_radius cb_updateRadius "radius"
| update_max_intensity :
    partial_update "max_intensity" change_max_intensity cb_updateMaxIntensity
      "maxIntensity".

(** [l] is one of the two subscriptions [modelEvents] makes for view [v]. *)
Definition subscribed (v : view_id) (l : Listener) : Prop :=
  l = {| l_event := change_point_radius; l_callback := cb_updateRadius;
         l_context := ctx_layer_view v |}
  ∨ l = {| l_event := change_max_intensity; l_callback := cb_updateMaxIntensity;
           l_context := ctx_layer_view v |}.

(** Every subscriber of model [m] is a heat map view of [m] that has
    rendered: its primitive exists. *)
Definition subscribers_rendered (w : World) (m : model_id) : Prop :=
  ∀ model l,
    layer_models w !! m = Some model →
    l ∈ lm_listeners model →
    ∃ v view h,
      subscribed v l
      ∧ layer_views w !! v = Some view
      ∧ lv_model view = m
      ∧ heatmap view = Some h
      ∧ (h < length (heatmaps w))%nat.

(** The trace entry is a property set on a primitive. *)
Definition is_property_set (e : Effect) : Prop :=
  match e with
  | heatmap_set _ _ _ => True
  | _ => False
  end.

(** [w2] differs from [w1] by property sets on existing primitives only:
    the views and models are the same objects, no primitive was created,
    and a primitive differs at most in [property], which then holds
    [value]. *)
Definition updated_in_place (property : string) (value : JsValue) (w1 w2 : World)
  : Prop :=
  layer_views w2 = layer_views w1
  ∧ layer_models w2 = layer_models w1
  ∧ length (heatmaps w2) = length (heatmaps w1)
  ∧ (∀ h x1, heatmaps w1 !! h = Some x1 →
       ∃ x2, heatmaps w2 !! h = Some x2
             ∧ hm_data x2 = hm_data x1
             ∧ hm_map x2 = hm_map x1
             ∧ (∀ q, q ≠ property → get_property x2 q = get_property x1 q)
             ∧ (get_property x2 property = get_property x1 property
                ∨ get_property x2 property = value))
  ∧ ∃ t, trace w2 = (trace w1 ++ t)%list ∧ Forall is_property_set t.

(** A computation [m] leaves the observation [f] of the world as it was,
    whether it returns or throws. *)
Definition preserves {A X} (f : World → X) (m : M A) : Prop :=
  ∀ w, f (world_of (m w)) = f w.

(** The change subscriptions of the map model. *)
Definition map_subscriptions (w : World) : list Listener :=
  mm_listeners (map_model w).


(** The state a destroyed view is in: what [View_remove] does to the
    heap of views. *)
Definition destroyed (v : view_id) (w : World) : World :=
  with_layer_views (alter (with_lv_removed true) v (layer_views w)) w.

Definition map_world {A} (g : World → World) (o : Outcome A) : Outcome A :=
  match o with
  | Ok a w => Ok a (g w)
  | Throw e w => Throw e (g w)
  end.

(** A heat map view created while the library handle was released, then
    destroyed, then reached by its load callback. *)
Definition late_load_events : list Event :=
  [Render; Displayed; LibraryLoaded; Configure ∅; RunJob; Remove 0; LibraryLoaded].


(** ** Reading the trace *)


(** The views [addToMapView] was called on, in order. *)
Definition added_to_map (t : list Effect) : list view_id :=
  omap (λ e, match e with call_addToMapView v => Some v | _ => None end) t.








(** ** What one job leaves behind *)




(** ** More sample pages *)

(** The sample map view rendered and the library loaded, just before the
    first pass of the synchronizer. *)
Definition sample_ready : World :=
  let rendered := run release_handle [Render] sample_world in
  with_loader (with_google true (loader rendered)) rendered.



(** ** Further notions *)

(** The bounds object [updateBounds] builds from two coordinate pairs. *)
Definition bounds_of (pairBL pairTR : list number) : LatLngBounds :=
  new_LatLngBounds (coordinates pairBL) (coordinates pairTR).

(** A layer model fresh from the defaults of its class. *)
Definition model_of_defaults (defaults : gmap string JsValue) : LayerModel :=
  {| data := []; attributes := defaults; host_attributes := ∅; lm_listeners := [] |}.

(** The names the layer model classes give defaults to. *)
Definition overridden_by_layer_models : list string :=
  ["_view_name"; "_model_name"; "_view_module"; "_model_module"].



(** The entries the first pass of the synchronizer makes: one per layer,
    with the promises numbered from [p]. *)
Definition first_entries (new_models : list model_id) (p : promise_id) : list ViewEntry :=
  zip_with (λ m q, {| ve_model := m; ve_promise := q |}) new_models
    (seq p (length new_models)).

(** The sample page with a map model that has no [data_bounds], as a map
    model fresh from its defaults. *)
Definition sample_unbounded : World :=
  with_map_model (with_data_bounds None sample_map_model) sample_ready.

(** [this.getData()] by view class: the data handed to the heat map
    primitive; the directions view has no such method. *)
Definition getData_of (cls : ViewClass) (data : list (list number))
  : option (list HeatmapDatum) :=
  match cls with
  | SimpleHeatmapLayerView => Some (SimpleHeatmapLayerView_getData data)
  | WeightedHeatmapLayerView => Some (WeightedHeatmapLayerView_getData data)
  | DirectionsLayerView => None
  end.

(** The two subscriptions [HeatmapLayerBaseView.modelEvents] makes for
    the view [v], in the order it makes them. *)
Definition heatmap_subscriptions (v : view_id) : list Listener :=
  [{| l_event := change_point_radius; l_callback := cb_updateRadius;
      l_context := ctx_layer_view v |};
   {| l_event := change_max_intensity; l_callback := cb_updateMaxIntensity;
      l_context := ctx_layer_view v |}].

(** The sample page with the library handle released before the first
    layer view is created: the view has rendered and subscribed, its
    primitive waits for the library. *)
Definition sample_unloaded : World :=
  run release_handle [Render; Displayed; LibraryLoaded; Configure ∅; RunJob] sample_world.

(** A page on which the first heat map layer of the sample page is listed
    twice: one model, two views, two primitives. *)
Definition sample_shared : World :=
  run release_handle
    [SetLayers ["heatmap-1"; "heatmap-1"]; Render; Displayed; LibraryLoaded;
     RunJob; RunJob; RunJob; RunJob]
    sample_world.

(** ** The life of a layer view *)

(** The trace entries that mark the life of a layer view: its
    construction and the call of its [addToMapView]. *)
Definition is_lifecycle (e : Effect) : bool :=
  match e with
  | new_view _ _ | call_addToMapView _ => true
  | _ => false
  end.

Definition is_add_job (j : Job) : bool :=
  match j with
  | add_to_map_job _ _ => true
  | _ => false
  end.

(** The views constructed, in order. *)
Definition constructed_views (t : list Effect) : list view_id :=
  omap (λ e, match e with new_view v _ => Some v | _ => None end) t.

(** The views whose add reaction waits in the job queue. *)
Definition waiting_to_be_added (js : list Job) : list view_id :=
  omap (λ j, match j with add_to_map_job v _ => Some v | _ => None end) js.

(** Every call of [addToMapView] comes after the construction of its
    view. *)
Definition added_after_construction (t : list Effect) : Prop :=
  ∀ t1 v t2, t = (t1 ++ call_addToMapView v :: t2)%list → v ∈ constructed_views t1.

(** The invariant of the page: the views are constructed once each, in
    the order of their places in the heap; the views waiting to be added
    and the views added are views of the heap, and no view is among them
    twice; every call of [addToMapView] comes after the construction. *)
Definition lifecycle (w : World) : Prop :=
  constructed_views (trace w) = seq 0 (length (layer_views w))
  ∧ Forall (λ v, v < length (layer_views w))%nat (waiting_to_be_added (jobs w))
  ∧ Forall (λ v, v < length (layer_views w))%nat (added_to_map (trace w))
  ∧ NoDup (waiting_to_be_added (jobs w) ++ added_to_map (trace w))%list
  ∧ added_after_construction (trace w).

(** The view [v] is in the heap and is neither waiting to be added nor
    added: it is younger than every view that is. *)
Definition youngest (v : view_id) (w : World) : Prop :=
  (v < length (layer_views w))%nat
  ∧ Forall (λ u, u < v)%nat (waiting_to_be_added (jobs w))
  ∧ Forall (λ u, u < v)%nat (added_to_map (trace w)).

(** The state between the construction of [v] and the queueing of its
    add reaction. *)
Definition just_constructed (v : view_id) (w : World) : Prop :=
  lifecycle w ∧ youngest v w.

(** ** Triples *)

(** From a world in [P], the computation [m] returns in [Q] or throws in
    [E]. *)
Definition hoare {A} (P : World → Prop) (m : M A) (Q : A → World → Prop)
    (E : World → Prop) : Prop :=
  ∀ w, P w →
    match m w with
    | Ok a w' => Q a w'
    | Throw _ w' => E w'
    end.

(** The computation [m] keeps the invariant [I], whether it returns or
    throws. *)
Definition keeps {A} (I : World → Prop) (m : M A) : Prop :=
  hoare I m (λ _, I) I.

(** An invariant that reads the heap of views only through its length,
    the trace only through its life cycle entries and the job queue only
    through its add reactions. *)
Record stable (I : World → Prop) : Prop := {
  st_loader : ∀ x w, I w → I (with_loader x w);
  st_layer_models : ∀ x w, I w → I (with_layer_models x w);
  st_map_model : ∀ x w, I w → I (with_map_model x w);
  st_map_view : ∀ x w, I w → I (with_map_view x w);
  st_heatmaps : ∀ x w, I w → I (with_heatmaps x w);
  st_renderers : ∀ x w, I w → I (with_renderers x w);
  st_maps : ∀ x w, I w → I (with_maps x w);
  st_promises : ∀ x w, I w → I (with_promises x w);
  st_routes : ∀ x w, I w → I (with_routes x w);
  st_timers : ∀ x w, I w → I (with_timers x w);
  st_view : ∀ v x w, I w → I (with_layer_views (<[v := x]> (layer_views w)) w);
  st_emit : ∀ e w, is_lifecycle e = false → I w → I (with_trace (trace w ++ [e]) w);
  st_enqueue : ∀ j w, is_add_job j = false → I w → I (with_jobs (jobs w ++ [j]) w)
}.

(** The state in which the add reaction of [v] runs: [v] is in the heap
    and is neither waiting to be added nor added. *)
Definition not_yet_added (v : view_id) (w : World) : Prop :=
  lifecycle w
  ∧ (v < length (layer_views w))%nat
  ∧ (v ∉ waiting_to_be_added (jobs w))
  ∧ (v ∉ added_to_map (trace w)).

(** * Reasoning about the monad *)

Lemma bind_ret_l {A B} (a : A) (k : A → M B) w : bind (ret a) k w = k a w.
Proof. reflexivity. Qed.

Lemma bind_gets {A B} (f : World → A) (k : A → M B) w :
  bind (gets f) k w = k (f w) w.
Proof. reflexivity. Qed.

Lemma bind_modify {B} f (k : unit → M B) w : bind (modify f) k w = k tt (f w).
Proof. reflexivity. Qed.

Lemma bind_throw {A B} e (k : A → M B) w : bind (throw e) k w = Throw e w.
Proof. reflexivity. Qed.

Lemma bind_assoc {A B C} (m : M A) (k1 : A → M B) (k2 : B → M C) w :
  bind (bind m k1) k2 w = bind m (λ a, bind (k1 a) k2) w.
Proof. unfold bind. destruct (m w); reflexivity. Qed.

Lemma bind_emit {B} e (k : unit → M B) w :
  bind (emit e) k w = k tt (with_trace (trace w ++ [e]) w).
Proof. reflexivity. Qed.

Lemma bind_Ok {A B} (m : M A) (k : A → M B) w a w' :
  m w = Ok a w' → bind m k w = k a w'.
Proof. unfold bind. intros ->. reflexivity. Qed.

Lemma bind_Throw {A B} (m : M A) (k : A → M B) w e w' :
  m w = Throw e w' → bind m k w = Throw e w'.
Proof. unfold bind. intros ->. reflexivity. Qed.

(** Projections of updated worlds. *)
Ltac wsimpl :=
  cbn [loader layer_models map_model map_view layer_views heatmaps renderers maps
       promises jobs routes timers trace
       with_loader with_layer_models with_map_model with_map_view with_layer_views
       with_heatmaps with_renderers with_maps with_promises with_jobs with_routes
       with_timers with_trace deref lift].

Tactic Notation "wsimpl" "in" hyp(H) :=
  cbn [loader layer_models map_model map_view layer_views heatmaps renderers maps
       promises jobs routes timers trace
       with_loader with_layer_models with_map_model with_map_view with_layer_views
       with_heatmaps with_renderers with_maps with_promises with_jobs with_routes
       with_timers with_trace deref lift] in H.

(** One pass of symbolic execution, up to the next read that is stuck. *)
Ltac mstep :=
  repeat first
    [ rewrite bind_assoc | rewrite bind_gets | rewrite bind_modify
    | rewrite bind_ret_l | rewrite bind_throw | rewrite bind_emit
    | progress wsimpl ].

Ltac munfold :=
  unfold get_layer_view, put_layer_view, get_layer_model, put_layer_model,
    put_map_model, put_map_view, enqueue.

Lemma world_eta w :
  {| loader := loader w; layer_models := layer_models w; map_model := map_model w;
     map_view := map_view w; layer_views := layer_views w; heatmaps := heatmaps w;
     renderers := renderers w; maps := maps w; promises := promises w;
     jobs := jobs w; routes := routes w; timers := timers w; trace := trace w |} = w.
Proof. destruct w; reflexivity. Qed.

(** * The loader configuration *)


(** * The routing request *)

Lemma request_of_three_parts (first final : list number) (middle : list (list number)) :
  DirectionsLayerView_request (first :: middle ++ [final]) =
  Return {| origin := coordinates first;
            destination := coordinates final;
            waypoints := (λ p, {| location := coordinates p |}) <$> middle;
            travelMode := DRIVING |}.
Proof.
  unfold DirectionsLayerView_request, DirectionsLayerView_getOrigin,
    DirectionsLayerView_getDestination, DirectionsLayerView_getWaypoints,
    underscore_first, underscore_last, underscore_tail, underscore_initial.
  assert (Hlast : last (first :: middle ++ [final]) = Some final).
  { rewrite app_comm_cons. apply last_snoc. }
  rewrite Hlast. cbn [head drop destructure_point Result_bind].
  rewrite !drop_0, length_app. cbn [length].
  replace (length middle + 1 - 1)%nat with (length middle) by lia.
  rewrite take_app_length. reflexivity.
Qed.

Lemma two_or_more_parts {A} (l : list A) :
  (2 ≤ length l)%nat → ∃ first middle last, l = first :: middle ++ [last].
Proof.
  destruct l as [|first rest]; cbn [length]; [lia|].
  intros Hlen. destruct rest as [|x middle _] using rev_ind; cbn [length] in Hlen; [lia|].
  exists first, middle, x. reflexivity.
Qed.

(** C10.  For a data list of at least two elements the request built by
    [render] has the first element as origin, the last as destination and
    the elements in between, in order, as waypoints, so that the three
    together are exactly the data list.  A shorter list gives no well
    formed request: on the empty list the construction throws, and on a
    one-element list origin and destination are the same point. *)
Theorem DirectionsLayerView_request_partitions (modelData : list (list number)) :
  ((2 ≤ length modelData)%nat →
     ∃ first middle last,
       modelData = first :: middle ++ [last]
       ∧ DirectionsLayerView_request modelData =
           Return {| origin := coordinates first;
                     destination := coordinates last;
                     waypoints := (λ p, {| location := coordinates p |}) <$> middle;
                     travelMode := DRIVING |}
       ∧ ∀ request, DirectionsLayerView_request modelData = Return request →
                    well_formed modelData request)
  ∧ ((length modelData < 2)%nat →
       ∀ request, DirectionsLayerView_request modelData = Return request →
                  ¬ well_formed modelData request)
  ∧ (modelData = [] →
       DirectionsLayerView_request modelData =
       Raise (TypeError "undefined is not iterable")).
Proof.
  split; [|split].
  - intros Hlen. destruct (two_or_more_parts modelData Hlen) as (first & middle & last & ->).
    exists first, middle, last. split; [reflexivity|]. split.
    + apply request_of_three_parts.
    + intros request. rewrite request_of_three_parts. intros [= <-].
      unfold well_formed. cbn [origin destination waypoints].
      rewrite fmap_cons, fmap_app. cbn [fmap list_fmap].
      rewrite <- list_fmap_compose. reflexivity.
  - intros Hlen request _ Hwf. unfold well_formed in Hwf.
    apply (f_equal length) in Hwf.
    rewrite length_fmap in Hwf. cbn [length] in Hwf.
    rewrite length_app in Hwf. cbn [length] in Hwf. lia.
  - intros ->. reflexivity.
Qed.

(** * The map model and the display surface *)


(** * The routing callback *)



(** * Partial updates of a heat map *)

Lemma hm_data_set_property x p v : hm_data (set_property x p v) = hm_data x.
Proof. unfold set_property. repeat case_decide; reflexivity. Qed.

Lemma hm_map_set_property x p v : hm_map (set_property x p v) = hm_map x.
Proof. unfold set_property. repeat case_decide; reflexivity. Qed.

Lemma get_set_property_other x p v q :
  q ≠ p → get_property (set_property x p v) q = get_property x q.
Proof.
  intros Hne. unfold set_property, get_property.
  repeat case_decide; subst; try reflexivity; try congruence.
Qed.

Lemma get_set_property x p v :
  p = "radius" ∨ p = "maxIntensity" → get_property (set_property x p v) p = v.
Proof.
  intros [-> | ->]; reflexivity.
Qed.

Lemma partial_update_property name event cb property :
  partial_update name event cb property →
  property = "radius" ∨ property = "maxIntensity".
Proof. destruct 1; [left|right]; reflexivity. Qed.

Lemma updated_in_place_refl property value w : updated_in_place property value w w.
Proof.
  repeat split.
  - intros h x1 Hx. exists x1. repeat split; [exact Hx | left; reflexivity].
  - exists []. rewrite app_nil_r. split; [reflexivity | constructor].
Qed.

Lemma updated_in_place_trans property value w1 w2 w3 :
  updated_in_place property value w1 w2 →
  updated_in_place property value w2 w3 →
  updated_in_place property value w1 w3.
Proof.
  intros (Hv1 & Hm1 & Hl1 & Hh1 & t1 & Ht1 & Hs1) (Hv2 & Hm2 & Hl2 & Hh2 & t2 & Ht2 & Hs2).
  repeat split; try congruence.
  - intros h x1 Hx1.
    destruct (Hh1 h x1 Hx1) as (x2 & Hx2 & Hd2 & Hp2 & Ho2 & Hg2).
    destruct (Hh2 h x2 Hx2) as (x3 & Hx3 & Hd3 & Hp3 & Ho3 & Hg3).
    exists x3. repeat split; try congruence.
    + intros q Hq. rewrite Ho3, Ho2 by assumption. reflexivity.
    + destruct Hg3 as [Hg3|Hg3]; [|right; exact Hg3].
      destruct Hg2 as [Hg2|Hg2]; [left|right]; congruence.
  - exists (t1 ++ t2)%list. split.
    + rewrite Ht2, Ht1, app_assoc. reflexivity.
    + apply Forall_app. split; assumption.
Qed.

(** One callback of a rendered heat map view sets the property on the
    view's primitive, in place. *)
Lemma run_partial_update name event cb property value w u view hu model :
  partial_update name event cb property →
  layer_views w !! u = Some view →
  heatmap view = Some hu →
  (hu < length (heatmaps w))%nat →
  layer_models w !! lv_model view = Some model →
  prop (attributes model) name = value →
  ∃ w', run_callback cb (ctx_layer_view u) w = Ok tt w'
        ∧ updated_in_place property value w w'
        ∧ ∃ x', heatmaps w' !! hu = Some x' ∧ get_property x' property = value.
Proof.
  intros Hpu Hv Hh Hlt Hm Hval.
  destruct (lookup_lt_is_Some_2 _ _ Hlt) as [x Hx].
  assert (Hrun : run_callback cb (ctx_layer_view u) w =
                 Ok tt (with_trace (trace w ++ [heatmap_set hu property value])
                          (with_heatmaps (<[hu := set_property x property value]> (heatmaps w)) w))).
  { destruct Hpu; cbn [run_callback];
      unfold HeatmapLayerBaseView_updateRadius, HeatmapLayerBaseView_updateMaxIntensity,
        HeatmapLayer_set; munfold; mstep; rewrite Hv; mstep; rewrite Hh; mstep;
      rewrite Hm; mstep; rewrite Hx; mstep; rewrite Hval; reflexivity. }
  eexists. split; [exact Hrun|]. wsimpl.
  pose proof (partial_update_property _ _ _ _ Hpu) as Hprop.
  split.
  - repeat split.
    + wsimpl. apply length_insert.
    + wsimpl. intros h x1 Hx1. destruct (decide (h = hu)) as [->|Hne].
      * rewrite Hx in Hx1. injection Hx1 as <-.
        exists (set_property x property value).
        rewrite list_lookup_insert_eq by exact Hlt.
        split; [reflexivity|]. split; [apply hm_data_set_property|].
        split; [apply hm_map_set_property|].
        split; [intros q Hq; apply get_set_property_other; exact Hq|].
        right. apply get_set_property. exact Hprop.
      * exists x1. rewrite list_lookup_insert_ne by congruence.
        repeat split; [exact Hx1 | left; reflexivity].
    + wsimpl. eexists. split; [reflexivity|].
      constructor; [exact I | constructor].
  - exists (set_property x property value).
    rewrite list_lookup_insert_eq by exact Hlt.
    split; [reflexivity | apply get_set_property; exact Hprop].
Qed.

Lemma subscribed_callback name event cb property v l :
  partial_update name event cb property →
  subscribed v l →
  l_event l = event →
  l_callback l = cb ∧ l_context l = ctx_layer_view v.
Proof.
  intros Hpu [-> | ->] Hev; destruct Hpu; cbn in Hev |- *;
    try discriminate; split; reflexivity.
Qed.

(** Notifying the subscribers of a change, all of them rendered heat map
    views of the changed model. *)
Lemma trigger_partial_update name event cb property value w0 m model ls :
  partial_update name event cb property →
  layer_models w0 !! m = Some model →
  prop (attributes model) name = value →
  (∀ l, l ∈ ls →
     ∃ v view h, subscribed v l ∧ layer_views w0 !! v = Some view
                 ∧ lv_model view = m ∧ heatmap view = Some h
                 ∧ (h < length (heatmaps w0))%nat) →
  ∀ w, updated_in_place property value w0 w →
    ∃ w', trigger ls event w = Ok tt w'
          ∧ updated_in_place property value w w'
          ∧ ∀ l, l ∈ ls → l_event l = event →
              ∀ v view h, l_context l = ctx_layer_view v →
                layer_views w0 !! v = Some view → heatmap view = Some h →
                ∃ x', heatmaps w' !! h = Some x' ∧ get_property x' property = value.
Proof.
  intros Hpu Hm Hval. induction ls as [|l rest IH]; intros Hsub w Hw.
  - exists w. split; [reflexivity|]. split; [apply updated_in_place_refl|].
    intros l Hl. apply elem_of_nil in Hl. contradiction.
  - assert (Hsub' : ∀ l0, l0 ∈ rest →
              ∃ v view h, subscribed v l0 ∧ layer_views w0 !! v = Some view
                          ∧ lv_model view = m ∧ heatmap view = Some h
                          ∧ (h < length (heatmaps w0))%nat).
    { intros l0 Hl0. apply Hsub. apply list_elem_of_further. exact Hl0. }
    cbn [trigger]. destruct (decide (l_event l = event)) as [Hev|Hev].
    + destruct (Hsub l (list_elem_of_here _ _)) as (v & view & h & Hs & Hv & Hmv & Hh & Hlt).
      destruct (subscribed_callback _ _ _ _ _ _ Hpu Hs Hev) as [Hcb Hctx].
      pose proof Hw as (Hvw & Hmw & Hlw & Hhw & Htw).
      destruct (run_partial_update name event cb property value w v view h model Hpu)
        as (w1 & Hrun & Hw1 & x1 & Hx1 & Hg1).
      { rewrite Hvw. exact Hv. }
      { exact Hh. }
      { rewrite Hlw. exact Hlt. }
      { rewrite Hmw, Hmv. exact Hm. }
      { exact Hval. }
      assert (Hw01 : updated_in_place property value w0 w1).
      { eapply updated_in_place_trans; eassumption. }
      destruct (IH Hsub' w1 Hw01) as (w' & Hrest & Hw' & Hdone).
      exists w'. split.
      { rewrite Hcb, Hctx. rewrite (bind_Ok _ _ _ _ _ Hrun). exact Hrest. }
      split; [eapply updated_in_place_trans; eassumption|].
      intros l0 Hl0 Hev0 v0 view0 h0 Hctx0 Hv0 Hh0.
      apply elem_of_cons in Hl0 as [-> | Hl0]; [|eapply Hdone; eassumption].
      rewrite Hctx in Hctx0. injection Hctx0 as <-.
      rewrite Hv in Hv0. injection Hv0 as <-.
      rewrite Hh in Hh0. injection Hh0 as <-.
      destruct Hw' as (_ & _ & _ & Hh' & _).
      destruct (Hh' h x1 Hx1) as (x' & Hx' & _ & _ & _ & Hg').
      exists x'. split; [exact Hx'|]. destruct Hg' as [Hg'|Hg']; congruence.
    + rewrite bind_ret_l.
      destruct (IH Hsub' w Hw) as (w' & Hrest & Hw' & Hdone).
      exists w'. split; [exact Hrest|]. split; [exact Hw'|].
      intros l0 Hl0 Hev0. apply elem_of_cons in Hl0 as [-> | Hl0]; [contradiction|].
      apply Hdone; assumption.
Qed.

Lemma partial_update_event name event cb property :
  partial_update name event cb property → event_of_attribute name = Some event.
Proof. destruct 1; reflexivity. Qed.


(** * What a computation leaves alone *)

Section Preserves.
Context {X : Type} (f : World → X).

Lemma preserves_ret {A} (a : A) : preserves f (ret a).
Proof. intros w. reflexivity. Qed.

Lemma preserves_throw {A} e : preserves f (@throw A e).
Proof. intros w. reflexivity. Qed.

Lemma preserves_gets {A} (g : World → A) : preserves f (gets g).
Proof. intros w. reflexivity. Qed.

Lemma preserves_deref {A} what (o : option A) : preserves f (deref what o).
Proof. intros w. destruct o; reflexivity. Qed.

Lemma preserves_lift {A} (r : Result A) : preserves f (lift r).
Proof. intros w. destruct r; reflexivity. Qed.

Lemma preserves_modify g : (∀ w, f (g w) = f w) → preserves f (modify g).
Proof. intros H w. apply H. Qed.

Lemma preserves_bind {A B} (m : M A) (k : A → M B) :
  preserves f m → (∀ a, preserves f (k a)) → preserves f (bind m k).
Proof.
  intros Hm Hk w. unfold bind. specialize (Hm w).
  destruct (m w) as [a w'|e w']; cbn [world_of] in *.
  - rewrite Hk. exact Hm.
  - exact Hm.
Qed.

Lemma preserves_try_catch {A} (m : M A) (handler : JsError → M A) :
  preserves f m → (∀ e, preserves f (handler e)) → preserves f (try_catch m handler).
Proof.
  intros Hm Hk w. unfold try_catch. specialize (Hm w).
  destruct (m w) as [a w'|e w']; cbn [world_of] in *.
  - exact Hm.
  - rewrite Hk. exact Hm.
Qed.

Lemma preserves_for_each {A} (g : A → M unit) (l : list A) :
  (∀ a, preserves f (g a)) → preserves f (for_each g l).
Proof.
  intros Hg. induction l as [|a l IH]; cbn [for_each].
  - apply preserves_ret.
  - apply preserves_bind; [apply Hg | intros _; exact IH].
Qed.

Lemma preserves_map_M {A B} (g : A → M B) (l : list A) :
  (∀ a, preserves f (g a)) → preserves f (map_M g l).
Proof.
  intros Hg. induction l as [|a l IH]; cbn [map_M].
  - apply preserves_ret.
  - apply preserves_bind; [apply Hg | intros b].
    apply preserves_bind; [exact IH | intros bs; apply preserves_ret].
Qed.
End Preserves.

Create HintDb preserves.

(** Breaks a computation down to its reads and writes; the writes are
    left to [write]. *)
Ltac preserves_step write :=
  first
    [ solve [auto 2 with preserves nocore]
    | apply preserves_ret | apply preserves_throw | apply preserves_gets
    | apply preserves_deref | apply preserves_lift
    | apply preserves_modify; intros ?; write
    | apply preserves_bind; [|intros ?]
    | apply preserves_try_catch; [|intros ?]
    | apply preserves_for_each; intros ?
    | apply preserves_map_M; intros ?
    | match goal with
      | |- preserves _ (match ?x with _ => _ end) => destruct x
      end ].

Ltac preserves_with write := munfold; unfold emit; repeat preserves_step write.

(** ** Observations of the map and its model

    An observation that reads nothing of the heaps (layer models, layer
    views, primitives, promises), queues, loader and trace is left alone
    by everything the layer views do. *)
Section LayerCode.
Context {X : Type} (f : World → X).
Hypothesis f_loader : ∀ x w, f (with_loader x w) = f w.
Hypothesis f_layer_models : ∀ x w, f (with_layer_models x w) = f w.
Hypothesis f_layer_views : ∀ x w, f (with_layer_views x w) = f w.
Hypothesis f_heatmaps : ∀ x w, f (with_heatmaps x w) = f w.
Hypothesis f_renderers : ∀ x w, f (with_renderers x w) = f w.
Hypothesis f_promises : ∀ x w, f (with_promises x w) = f w.
Hypothesis f_jobs : ∀ x w, f (with_jobs x w) = f w.
Hypothesis f_routes : ∀ x w, f (with_routes x w) = f w.
Hypothesis f_trace : ∀ x w, f (with_trace x w) = f w.

Ltac write :=
  rewrite ?f_loader, ?f_layer_models, ?f_layer_views, ?f_heatmaps, ?f_renderers,
    ?f_promises, ?f_jobs, ?f_routes, ?f_trace; reflexivity.

Ltac go := preserves_with write.

Lemma layer_code_new_HeatmapLayer options : preserves f (new_HeatmapLayer_ options).
Proof. unfold new_HeatmapLayer_. go. Qed.

Lemma layer_code_setMap h on_map : preserves f (HeatmapLayer_setMap h on_map).
Proof. unfold HeatmapLayer_setMap. go. Qed.

Lemma layer_code_set h property value : preserves f (HeatmapLayer_set h property value).
Proof. unfold HeatmapLayer_set. go. Qed.

Lemma layer_code_new_DirectionsRenderer on_map :
  preserves f (new_DirectionsRenderer_ on_map).
Proof. unfold new_DirectionsRenderer_. go. Qed.

Lemma layer_code_setDirections r result :
  preserves f (DirectionsRenderer_setDirections r result).
Proof. unfold DirectionsRenderer_setDirections. go. Qed.

Lemma layer_code_route v request : preserves f (DirectionsService_route v request).
Proof. unfold DirectionsService_route. go. Qed.

Lemma layer_code_load callback now :
  preserves f now → preserves f (GoogleMapsLoader_load callback now).
Proof. intros Hnow. unfold GoogleMapsLoader_load. go. Qed.

Hint Resolve layer_code_new_HeatmapLayer layer_code_setMap layer_code_set
  layer_code_new_DirectionsRenderer layer_code_setDirections layer_code_route
  : preserves.

Lemma layer_code_updateRadius v : preserves f (HeatmapLayerBaseView_updateRadius v).
Proof. unfold HeatmapLayerBaseView_updateRadius. go. Qed.

Lemma layer_code_updateMaxIntensity v :
  preserves f (HeatmapLayerBaseView_updateMaxIntensity v).
Proof. unfold HeatmapLayerBaseView_updateMaxIntensity. go. Qed.

Lemma layer_code_updateBounds : preserves f PlainmapView_updateBounds.
Proof. unfold PlainmapView_updateBounds. go. Qed.

Hint Resolve layer_code_updateRadius layer_code_updateMaxIntensity
  layer_code_updateBounds : preserves.

Lemma layer_code_run_callback callback context :
  preserves f (run_callback callback context).
Proof. unfold run_callback. go. Qed.

Lemma layer_code_trigger listeners event : preserves f (trigger listeners event).
Proof.
  induction listeners as [|l rest IH]; cbn [trigger].
  - apply preserves_ret.
  - apply preserves_bind; [|intros _; exact IH].
    destruct (decide (l_event l = event));
      [apply layer_code_run_callback | apply preserves_ret].
Qed.

Hint Resolve layer_code_trigger : preserves.

Lemma layer_code_LayerModel_set m name value :
  preserves f (LayerModel_set m name value).
Proof. unfold LayerModel_set. go. Qed.

Lemma layer_code_touch v : preserves f (WidgetView_touch v).
Proof. unfold WidgetView_touch. go. Qed.

Lemma layer_code_modelEvents v : preserves f (HeatmapLayerBaseView_modelEvents v).
Proof. unfold HeatmapLayerBaseView_modelEvents. go. Qed.

Lemma layer_code_getData v : preserves f (LayerView_getData v).
Proof. unfold LayerView_getData. go. Qed.

Hint Resolve layer_code_LayerModel_set layer_code_touch layer_code_modelEvents
  layer_code_getData : preserves.

Lemma layer_code_loaded v : preserves f (HeatmapLayerBaseView_loaded v).
Proof. unfold HeatmapLayerBaseView_loaded. go. Qed.

Hint Resolve layer_code_loaded : preserves.

Lemma layer_code_heatmap_render v : preserves f (HeatmapLayerBaseView_render v).
Proof.
  unfold HeatmapLayerBaseView_render.
  apply preserves_bind; [go | intros _; apply layer_code_load; go].
Qed.

Lemma layer_code_heatmap_addToMapView v :
  preserves f (HeatmapLayerBaseView_addToMapView v).
Proof. unfold HeatmapLayerBaseView_addToMapView. go. Qed.

Lemma layer_code_directions_render v : preserves f (DirectionsLayerView_render v).
Proof. unfold DirectionsLayerView_render. go. Qed.

Lemma layer_code_routed v result status :
  preserves f (DirectionsLayerView_routed v result status).
Proof. unfold DirectionsLayerView_routed. go. Qed.

Hint Resolve layer_code_heatmap_render layer_code_heatmap_addToMapView
  layer_code_directions_render layer_code_routed : preserves.

Lemma layer_code_render v : preserves f (LayerView_render v).
Proof. unfold LayerView_render. go. Qed.

Lemma layer_code_addToMapView v : preserves f (LayerView_addToMapView v).
Proof. unfold LayerView_addToMapView, DirectionsLayerView_addToMapView. go. Qed.

Hint Resolve layer_code_render layer_code_addToMapView : preserves.

Lemma layer_code_new_promise : preserves f new_promise.
Proof. unfold new_promise. go. Qed.

Lemma layer_code_settle p x : preserves f (settle p x).
Proof. unfold settle. go. Qed.

Hint Resolve layer_code_new_promise layer_code_settle : preserves.

Lemma layer_code_reject p e : preserves f (reject p e).
Proof. unfold reject. go. Qed.

Lemma layer_code_fulfil p v : preserves f (fulfil p v).
Proof. unfold fulfil. go. Qed.

Lemma layer_code_addLayerModel childModel :
  preserves f (PlainmapView_addLayerModel childModel).
Proof. unfold PlainmapView_addLayerModel, WidgetView_create_child_view. go. Qed.

Lemma layer_code_create_view m : preserves f (WidgetManager_create_view m).
Proof. unfold WidgetManager_create_view. go. Qed.

Lemma layer_code_remove v : preserves f (View_remove v).
Proof. unfold View_remove. go. Qed.

Lemma layer_code_then_remove p : preserves f (then_remove p).
Proof. unfold then_remove. go. Qed.

Hint Resolve layer_code_reject layer_code_fulfil layer_code_addLayerModel
  layer_code_create_view layer_code_remove layer_code_then_remove : preserves.

Lemma layer_code_run_job j : preserves f (run_job j).
Proof. unfold run_job, PlainmapView_addLayerModel_then. go. Qed.

Lemma layer_code_route_done v result status :
  preserves f (route_done v result status).
Proof. unfold route_done. go. Qed.
End LayerCode.

(** ** The map model's subscriptions *)

Section MapSubscriptions.
Variable release : GoogleMapsLoader → GoogleMapsLoader.

Ltac go := preserves_with ltac:(reflexivity).

Local Hint Extern 1 (preserves map_subscriptions (run_job _)) =>
  apply layer_code_run_job; intros; reflexivity : preserves.
Local Hint Extern 1 (preserves map_subscriptions (then_remove _)) =>
  apply layer_code_then_remove; intros; reflexivity : preserves.
Local Hint Extern 1 (preserves map_subscriptions (PlainmapView_addLayerModel _)) =>
  apply layer_code_addLayerModel; intros; reflexivity : preserves.
Local Hint Extern 1 (preserves map_subscriptions PlainmapView_updateBounds) =>
  apply layer_code_updateBounds; intros; reflexivity : preserves.
Local Hint Extern 1 (preserves map_subscriptions (HeatmapLayerBaseView_loaded _)) =>
  apply layer_code_loaded; intros; reflexivity : preserves.
Local Hint Extern 1 (preserves map_subscriptions (route_done _ _ _)) =>
  apply layer_code_route_done; intros; reflexivity : preserves.
Local Hint Extern 1 (preserves map_subscriptions (LayerModel_set _ _ _)) =>
  apply layer_code_LayerModel_set; intros; reflexivity : preserves.
Local Hint Extern 1 (preserves map_subscriptions (View_remove _)) =>
  apply layer_code_remove; intros; reflexivity : preserves.
Local Hint Extern 1 (preserves map_subscriptions (trigger _ _)) =>
  apply layer_code_trigger; intros; reflexivity : preserves.

Lemma subscriptions_new_Map : preserves map_subscriptions new_Map_.
Proof. unfold new_Map_. go. Qed.

Lemma subscriptions_update new_models :
  preserves map_subscriptions (ViewList_update new_models).
Proof. unfold ViewList_update. go. Qed.

Local Hint Resolve subscriptions_new_Map subscriptions_update : preserves.

Lemma subscriptions_loaded initialBounds :
  preserves map_subscriptions (PlainmapView_loaded initialBounds).
Proof. unfold PlainmapView_loaded. go. Qed.

Local Hint Resolve subscriptions_loaded : preserves.

Lemma subscriptions_displayed initialBounds :
  preserves map_subscriptions (PlainmapView_displayed initialBounds).
Proof. unfold PlainmapView_displayed, GoogleMapsLoader_load. go. Qed.

Lemma subscriptions_library_loaded : preserves map_subscriptions library_loaded.
Proof. unfold library_loaded, run_load_callback. go. Qed.

Lemma subscriptions_set_data_bounds value :
  preserves map_subscriptions (MapModel_set_data_bounds value).
Proof.
  intros w. unfold MapModel_set_data_bounds. munfold. mstep.
  destruct (decide (data_bounds (map_model w) = Some value)); [reflexivity|].
  mstep.
  rewrite (layer_code_trigger map_subscriptions); try reflexivity.
Qed.

Local Hint Resolve subscriptions_displayed subscriptions_library_loaded
  subscriptions_set_data_bounds : preserves.




End MapSubscriptions.

(** * The viewport *)



(** * The layer list synchronizer *)

Lemma filter_all {A} (P : A → Prop) `{∀ x, Decision (P x)} (l : list A) :
  (∀ x, x ∈ l → P x) → filter P l = l.
Proof.
  induction l as [|a l IH]; intros Hall; [reflexivity|].
  rewrite filter_cons_True by (apply Hall; apply list_elem_of_here).
  rewrite IH; [reflexivity|].
  intros x Hx. apply Hall. apply list_elem_of_further. exact Hx.
Qed.

Lemma filter_none {A} (P : A → Prop) `{∀ x, Decision (P x)} (l : list A) :
  (∀ x, x ∈ l → ¬ P x) → filter P l = [].
Proof.
  induction l as [|a l IH]; intros Hnone; [reflexivity|].
  rewrite filter_cons_False by (apply Hnone; apply list_elem_of_here).
  apply IH. intros x Hx. apply Hnone. apply list_elem_of_further. exact Hx.
Qed.

Lemma map_view_eta v :
  {| el_style := el_style v; layerViews := layerViews v; pv_map := pv_map v;
     displayed := displayed v |} = v.
Proof. destruct v; reflexivity. Qed.

(** With an entry for every model of the sequence and no other entry,
    the synchronizer has nothing to do: the world stays as it is. *)
Lemma ViewList_update_nothing_to_do new_models w views :
  layerViews (map_view w) = Some views →
  (∀ e, e ∈ views → ve_model e ∈ new_models) →
  (∀ m, m ∈ new_models → m ∈ ve_model <$> views) →
  ViewList_update new_models w = Ok tt w.
Proof.
  intros Hviews Hkept Hall.
  unfold ViewList_update. munfold. mstep. rewrite Hviews. mstep.
  rewrite (filter_none (λ e, ve_model e ∉ new_models)).
  2: { intros e He Hnot. apply Hnot. apply Hkept. exact He. }
  rewrite (filter_all (λ e, ve_model e ∈ new_models)) by exact Hkept.
  rewrite (filter_none (λ m, m ∉ ve_model <$> views)).
  2: { intros m Hm Hnot. apply Hnot. apply Hall. exact Hm. }
  cbn [fmap list_fmap for_each map_M]. mstep. rewrite app_nil_r.
  unfold modify. f_equal. unfold with_map_view, with_layerViews. rewrite <- Hviews.
  rewrite map_view_eta. apply world_eta.
Qed.

(** Chaining removals never throws and does not touch the map view. *)
Lemma for_each_then_remove ps w :
  ∃ w', for_each then_remove ps w = Ok tt w' ∧ map_view w' = map_view w.
Proof.
  revert w. induction ps as [|p ps IH]; intros w.
  - exists w. split; reflexivity.
  - cbn [for_each].
    assert (Hone : ∃ w1, then_remove p w = Ok tt w1 ∧ map_view w1 = map_view w).
    { unfold then_remove, settle. munfold. mstep.
      destruct (promises w !! p) as [[b|v|e]|]; mstep; eexists; split; reflexivity. }
    destruct Hone as (w1 & Hrun & Hmv). destruct (IH w1) as (w' & Hrest & Hmv').
    exists w'. rewrite (bind_Ok _ _ _ _ _ Hrun). split; [exact Hrest | congruence].
Qed.

(** Adding the layers never throws, makes one entry per model, in order,
    and does not touch the map view. *)
Lemma map_M_addLayerModel added w :
  ∃ created w',
    map_M (λ m, do p <- PlainmapView_addLayerModel m;
                ret {| ve_model := m; ve_promise := p |}) added w
    = Ok created w'
    ∧ ve_model <$> created = added
    ∧ map_view w' = map_view w.
Proof.
  revert w. induction added as [|m added IH]; intros w.
  - exists [], w. repeat split.
  - cbn [map_M].
    set (w1 := with_jobs (jobs w ++ [create_view_job m (length (promises w))])
                 (with_promises (promises w ++ [pending false]) w)).
    destruct (IH w1) as (created & w' & Hrest & Hmodels & Hmv).
    exists ({| ve_model := m; ve_promise := length (promises w) |} :: created), w'.
    split; [|split].
    + unfold PlainmapView_addLayerModel, WidgetView_create_child_view, new_promise.
      munfold. mstep. fold w1. rewrite (bind_Ok _ _ _ _ _ Hrest). reflexivity.
    + cbn [fmap list_fmap ve_model]. f_equal. exact Hmodels.
    + rewrite Hmv. reflexivity.
Qed.

(** What one pass of the synchronizer leaves in the list. *)
Lemma ViewList_update_entries new_models w w1 :
  ViewList_update new_models w = Ok tt w1 →
  ∃ views created,
    layerViews (map_view w) = Some views
    ∧ layerViews (map_view w1)
      = Some (filter (λ e, ve_model e ∈ new_models) views ++ created)%list
    ∧ ve_model <$> created = filter (λ m, m ∉ ve_model <$> views) new_models.
Proof.
  unfold ViewList_update. munfold. mstep.
  destruct (layerViews (map_view w)) as [views|] eqn:Hviews; mstep; [|discriminate].
  destruct (for_each_then_remove
              (ve_promise <$> filter (λ e, ve_model e ∉ new_models) views) w)
    as (wa & Hremove & Hmva).
  rewrite (bind_Ok _ _ _ _ _ Hremove).
  destruct (map_M_addLayerModel (filter (λ m, m ∉ ve_model <$> views) new_models) wa)
    as (created & wb & Hadd & Hmodels & Hmvb).
  rewrite (bind_Ok _ _ _ _ _ Hadd). mstep. intros [= <-].
  exists views, created. split; [reflexivity|]. split; [reflexivity | exact Hmodels].
Qed.

(** Running queued jobs does not touch the map view. *)
Lemma run_jobs_map_view release n w :
  map_view (run release (replicate n RunJob) w) = map_view w.
Proof.
  revert w. induction n as [|n IH]; intros w; [reflexivity|].
  cbn [replicate]. unfold run. cbn [foldl].
  change (foldl (dispatch release) ?w ?l) with (run release l w).
  rewrite IH. unfold dispatch. cbn [step].
  assert (Hstep : preserves map_view
            (do js <- gets jobs;
             match js with
             | [] => ret tt
             | j :: rest => modify (with_jobs rest) ;; run_job j
             end)).
  { apply preserves_bind; [apply preserves_gets | intros js].
    destruct js as [|j rest]; [apply preserves_ret|].
    apply preserves_bind; [apply preserves_modify; reflexivity | intros _].
    apply layer_code_run_job; reflexivity. }
  specialize (Hstep w).
  destruct ((do js <- gets jobs;
             match js with
             | [] => ret tt
             | j :: rest => modify (with_jobs rest) ;; run_job j
             end) w); exact Hstep.
Qed.

(** C5.  A second pass of the synchronizer over an unchanged [layers]
    sequence changes nothing: it queues no view creation and chains no
    removal, and leaves the world, with its list of entries, exactly as
    the first pass left it.  The same holds when the second pass comes
    after any number of the queued jobs have run. *)
Theorem ViewList_update_idempotent new_models w w1 :
  ViewList_update new_models w = Ok tt w1 →
  ViewList_update new_models w1 = Ok tt w1
  ∧ ∀ release n,
      ViewList_update new_models (run release (replicate n RunJob) w1)
      = Ok tt (run release (replicate n RunJob) w1).
Proof.
  intros Hfirst.
  destruct (ViewList_update_entries new_models w w1 Hfirst)
    as (views & created & Hviews & Hviews1 & Hmodels).
  assert (Hkept : ∀ e, e ∈ (filter (λ e, ve_model e ∈ new_models) views ++ created)%list →
                       ve_model e ∈ new_models).
  { intros e He. apply elem_of_app in He as [He|He].
    - apply list_elem_of_filter in He as [He _]. exact He.
    - assert (Hin : ve_model e ∈ ve_model <$> created)
        by (apply list_elem_of_fmap; exists e; split; [reflexivity | exact He]).
      rewrite Hmodels in Hin. apply list_elem_of_filter in Hin as [_ Hin]. exact Hin. }
  assert (Hall : ∀ m, m ∈ new_models →
                   m ∈ ve_model <$>
                       (filter (λ e, ve_model e ∈ new_models) views ++ created)%list).
  { intros m Hm. rewrite fmap_app. apply elem_of_app.
    destruct (decide (m ∈ ve_model <$> views)) as [Hin|Hnot].
    - left. apply list_elem_of_fmap in Hin as (e & -> & He).
      apply list_elem_of_fmap. exists e. split; [reflexivity|].
      apply list_elem_of_filter. split; assumption.
    - right. rewrite Hmodels. apply list_elem_of_filter. split; assumption. }
  split.
  - eapply ViewList_update_nothing_to_do; eassumption.
  - intros release n. eapply ViewList_update_nothing_to_do; [|exact Hkept|exact Hall].
    rewrite run_jobs_map_view. exact Hviews1.
Qed.

(** * Completion handlers and destroyed views *)

(** C8, as stated, fails: the routing callback of a destroyed directions
    view still stores the status in the model, pushes it and attaches the
    route; the load callback of a destroyed heat map view still creates
    the primitive and stores it in the view. *)
Lemma destroyed_view_still_mutated :
  let w := run release_handle [Remove 1] sample_page in
  let w' := run release_handle [RouteDone 1 (Some (directions_result [])) "OK"] w in
  let u := run release_handle late_load_events sample_world in
  (lv_removed <$> layer_views w !! 1%nat = Some true)
  ∧ (lv_model <$> layer_views w !! 1%nat = Some "directions-1")
  ∧ ((λ model, prop (attributes model) "layer_status") <$>
       layer_models w !! "directions-1" = Some JUndefined)
  ∧ ((λ model, prop (attributes model) "layer_status") <$>
       layer_models w' !! "directions-1" = Some (JString "OK"))
  ∧ ((λ model, prop (host_attributes model) "layer_status") <$>
       layer_models w' !! "directions-1" = Some (JString "OK"))
  ∧ drop (length (trace w)) (trace w') =
      [console_log "Direction service returned: OK"; touch 1;
       setDirections 0 (Some (directions_result []))]
  ∧ drop 2 (trace u) = [new_view 0 "heatmap-1"; view_removed 0; new_HeatmapLayer 0]
  ∧ (heatmap <$> layer_views u !! 0%nat = Some (Some 0%nat))
  ∧ (lv_removed <$> layer_views u !! 0%nat = Some true).
Proof. vm_compute. repeat split; reflexivity. Qed.

Lemma insert_alter_same {A} (f : A → A) (l : list A) i x :
  <[i := x]> (alter f i l) = <[i := x]> l.
Proof.
  revert i. induction l as [|a l IH]; intros [|i]; cbn; try reflexivity.
  f_equal. apply IH.
Qed.

Lemma alter_insert_same {A} (f : A → A) (l : list A) i x :
  alter f i (<[i := x]> l) = <[i := f x]> l.
Proof.
  revert i. induction l as [|a l IH]; intros [|i]; cbn; try reflexivity.
  f_equal. apply IH.
Qed.

(** The routing callback never looks at the liveness of its view. *)
Lemma routed_ignores_liveness v result status w :
  DirectionsLayerView_routed v result status (destroyed v w)
  = map_world (destroyed v) (DirectionsLayerView_routed v result status w).
Proof.
  unfold DirectionsLayerView_routed, LayerModel_set, WidgetView_touch,
    DirectionsRenderer_setDirections, destroyed.
  munfold. mstep. rewrite list_lookup_alter_eq.
  destruct (layer_views w !! v) as [view|] eqn:Hv; cbn [fmap option_fmap option_map];
    mstep; [|reflexivity].
  cbn [lv_model with_lv_removed].
  destruct (layer_models w !! lv_model view) as [model|] eqn:Hm; mstep; [|reflexivity].
  change (event_of_attribute "layer_status") with (@None EventName).
  destruct (decide (prop (attributes model) "layer_status" = JString status)).
  - mstep. rewrite list_lookup_alter_eq, Hv. cbn [fmap option_fmap option_map]. mstep.
    cbn [lv_model with_lv_removed]. rewrite Hm. mstep.
    destruct (decide (status = DirectionsStatus_OK)); [|reflexivity].
    mstep. rewrite list_lookup_alter_eq, Hv. cbn [fmap option_fmap option_map]. mstep.
    cbn [directionsDisplay with_lv_removed].
    destruct (directionsDisplay view) as [r|]; mstep;
      [destruct (renderers w !! r); mstep|];
      unfold emit, modify; cbn [map_world]; wsimpl;
      rewrite ?insert_alter_same, ?alter_insert_same; reflexivity.
  - mstep. rewrite list_lookup_alter_eq, Hv. cbn [fmap option_fmap option_map]. mstep.
    cbn [lv_model with_lv_removed]. rewrite lookup_insert_eq. mstep.
    destruct (decide (status = DirectionsStatus_OK)); [|reflexivity].
    mstep. rewrite list_lookup_alter_eq, Hv. cbn [fmap option_fmap option_map]. mstep.
    cbn [directionsDisplay with_lv_removed].
    destruct (directionsDisplay view) as [r|]; mstep;
      [destruct (renderers w !! r); mstep|];
      unfold emit, modify; cbn [map_world]; wsimpl;
      rewrite ?insert_alter_same, ?alter_insert_same; reflexivity.
Qed.

(** Neither does the load callback of a heat map view. *)
Lemma loaded_ignores_liveness v w :
  HeatmapLayerBaseView_loaded v (destroyed v w)
  = map_world (destroyed v) (HeatmapLayerBaseView_loaded v w).
Proof.
  unfold HeatmapLayerBaseView_loaded, LayerView_getData, new_HeatmapLayer_, destroyed.
  munfold. mstep. rewrite list_lookup_alter_eq.
  destruct (layer_views w !! v) as [view|] eqn:Hv; cbn [fmap option_fmap option_map];
    mstep; [|reflexivity].
  cbn [lv_model lv_class with_lv_removed].
  destruct (layer_models w !! lv_model view) as [model|] eqn:Hm; mstep; [|reflexivity].
  destruct (lv_class view); mstep; try reflexivity;
    rewrite list_lookup_alter_eq, Hv; cbn [fmap option_fmap option_map]; mstep;
    cbn [lv_model with_lv_removed]; rewrite Hm; mstep;
    rewrite list_lookup_alter_eq, Hv; cbn [fmap option_fmap option_map]; mstep;
    unfold emit, modify; cbn [map_world]; wsimpl;
    rewrite ?insert_alter_same, ?alter_insert_same; reflexivity.
Qed.

(** C8, amended.  No completion handler checks whether its view is still
    alive: for a destroyed view the routing callback and the load
    callback do exactly what they do for a live one. *)
Theorem handlers_ignore_liveness v w :
  (∀ result status,
     DirectionsLayerView_routed v result status (destroyed v w)
     = map_world (destroyed v) (DirectionsLayerView_routed v result status w))
  ∧ HeatmapLayerBaseView_loaded v (destroyed v w)
    = map_world (destroyed v) (HeatmapLayerBaseView_loaded v w)
  ∧ (∀ u, View_remove v u
          = match layer_views u !! v with
            | Some _ => Ok tt (with_trace (trace u ++ [view_removed v]) (destroyed v u))
            | None => Throw (TypeError "view") u
            end).
Proof.
  split; [|split].
  - intros result status. apply routed_ignores_liveness.
  - apply loaded_ignores_liveness.
  - intros u. unfold View_remove, destroyed. munfold. mstep.
    destruct (layer_views u !! v) as [view|] eqn:Hv; mstep; [|reflexivity].
    assert (Heq : <[v := with_lv_removed true view]> (layer_views u)
                  = alter (with_lv_removed true) v (layer_views u)).
    { apply list_eq. intros i. rewrite list_insert_alter, !list_lookup_alter.
      destruct (decide (v = i)) as [<-|]; [rewrite Hv|]; reflexivity. }
    rewrite Heq. reflexivity.
Qed.

(** * The add path *)


(** * The order of attachment *)


(** ** One job at a time *)









(** ** Running the queue *)
















(** * The statements on the sample page *)



(** A second pass over the layers of the sample page, right after the
    first and after the queued jobs have run. *)
Lemma second_pass_on_sample_page :
  let layers := ["heatmap-1"; "directions-1"; "heatmap-2"] in
  let w1 := world_of (ViewList_update layers sample_ready) in
  jobs w1 = [create_view_job "heatmap-1" 0; create_view_job "directions-1" 1;
             create_view_job "heatmap-2" 2]
  ∧ ViewList_update layers w1 = Ok tt w1
  ∧ ViewList_update layers (run release_handle (replicate 6 RunJob) w1)
    = Ok tt (run release_handle (replicate 6 RunJob) w1).
Proof.
  intros layers w1.
  destruct (ViewList_update_idempotent layers sample_ready w1) as [Hsecond Hlater].
  - vm_compute. reflexivity.
  - split; [vm_compute; reflexivity|]. split; [exact Hsecond|].
    exact (Hlater release_handle 6%nat).
Defined.




(** * Further properties of the module *)

(** ** Bounds *)



(** ** The routing request, again *)

(** X3.  The request construction throws exactly on the empty data list.
    On a one-element list it builds a request from the single point to
    itself, on a two-element list one without waypoints, and in general
    the number of waypoints is the length of the list less two; a tuple
    with fewer than two numbers gives a point with undefined coordinates
    instead of an error. *)
Theorem DirectionsLayerView_request_shapes :
  (∀ modelData,
     (∃ e, DirectionsLayerView_request modelData = Raise e) ↔ modelData = [])
  ∧ (∀ p,
       DirectionsLayerView_request [p]
       = Return {| origin := coordinates p; destination := coordinates p;
                   waypoints := []; travelMode := DRIVING |})
  ∧ (∀ p q,
       DirectionsLayerView_request [p; q]
       = Return {| origin := coordinates p; destination := coordinates q;
                   waypoints := []; travelMode := DRIVING |})
  ∧ (∀ modelData request,
       DirectionsLayerView_request modelData = Return request →
       length (waypoints request) = (length modelData - 2)%nat
       ∧ travelMode request = DRIVING
       ∧ Some (origin request) = coordinates <$> head modelData
       ∧ Some (destination request) = coordinates <$> last modelData)
  ∧ DirectionsLayerView_request [[]; []]
    = Return {| origin := new_LatLng None None; destination := new_LatLng None None;
                waypoints := []; travelMode := DRIVING |}.
Proof.
  assert (Hcases : ∀ modelData : list (list number),
            modelData = []
            ∨ (∃ p, modelData = [p])
            ∨ (∃ first middle final, modelData = first :: middle ++ [final])).
  { intros [|a l]; [left; reflexivity|right].
    destruct l as [|x middle _] using rev_ind; [left; exists a; reflexivity|].
    right. exists a, middle, x. reflexivity. }
  split; [|split; [|split; [|split]]].
  - intros modelData. split.
    + intros (e & He).
      destruct (Hcases modelData) as [-> | [(p & ->) | (first & middle & final & ->)]];
        [reflexivity | discriminate He |].
      rewrite request_of_three_parts in He. discriminate He.
    + intros ->. eexists. reflexivity.
  - intros p. reflexivity.
  - intros p q. reflexivity.
  - intros modelData request Hreq.
    destruct (Hcases modelData) as [-> | [(p & ->) | (first & middle & final & ->)]].
    + discriminate Hreq.
    + injection Hreq as <-. repeat split.
    + rewrite request_of_three_parts in Hreq. injection Hreq as <-.
      cbn [waypoints travelMode origin destination head length].
      rewrite length_fmap, length_app. cbn [length].
      split; [lia|]. split; [reflexivity|]. split; [reflexivity|].
      rewrite app_comm_cons, last_snoc. reflexivity.
  - reflexivity.
Qed.

(** ** The defaults of the model classes *)

(** X4.  Whatever the defaults of the framework's base class, the
    defaults of each layer model class name the view class of that layer
    (and the base layer model names a view class the module does not
    export), every layer and map model keeps "jupyter-gmaps" as its view
    and model module, and every other default of the base class is
    inherited unchanged. *)
Theorem model_defaults_inherit (base : gmap string JsValue) :
  view_class_of (model_of_defaults (DirectionsLayerModel_defaults base))
  = Some DirectionsLayerView
  ∧ view_class_of (model_of_defaults (SimpleHeatmapLayerModel_defaults base))
    = Some SimpleHeatmapLayerView
  ∧ view_class_of (model_of_defaults (WeightedHeatmapLayerModel_defaults base))
    = Some WeightedHeatmapLayerView
  ∧ view_class_of (model_of_defaults (GMapsLayerModel_defaults base)) = None
  ∧ (∀ defaults,
       defaults ∈ [GMapsLayerModel_defaults base; DirectionsLayerModel_defaults base;
                   SimpleHeatmapLayerModel_defaults base;
                   WeightedHeatmapLayerModel_defaults base;
                   PlainmapModel_defaults base] →
       defaults !! "_view_module" = Some (JString "jupyter-gmaps")
       ∧ defaults !! "_model_module" = Some (JString "jupyter-gmaps"))
  ∧ (∀ defaults name,
       defaults ∈ [GMapsLayerModel_defaults base; DirectionsLayerModel_defaults base;
                   SimpleHeatmapLayerModel_defaults base;
                   WeightedHeatmapLayerModel_defaults base] →
       name ∉ overridden_by_layer_models →
       defaults !! name = base !! name)
  ∧ (∀ name,
       name ∉ overridden_by_layer_models → name ≠ "width" → name ≠ "height" →
       PlainmapModel_defaults base !! name = base !! name).
Proof.
  assert (Hview : ∀ (own parent : gmap string JsValue) v,
            own !! "_view_name" = Some v →
            prop (underscore_extend parent own) "_view_name" = v).
  { intros own parent v Hown. unfold prop, underscore_extend.
    rewrite (lookup_union_Some_l own parent _ _ Hown). reflexivity. }
  assert (Hother : ∀ (own parent : gmap string JsValue) name,
            own !! name = None →
            underscore_extend parent own !! name = parent !! name).
  { intros own parent name Hown. unfold underscore_extend.
    apply lookup_union_r. exact Hown. }
  assert (Hfour : ∀ name v1 v2 v3 v4,
            name ∉ overridden_by_layer_models →
            ({[ "_view_name" := v1; "_model_name" := v2; "_view_module" := v3;
                "_model_module" := v4 ]} : gmap string JsValue) !! name = None).
  { intros name v1 v2 v3 v4 Hnot. unfold overridden_by_layer_models in Hnot.
    rewrite !lookup_insert_ne by (intros <-; apply Hnot; set_solver).
    apply lookup_singleton_ne. intros <-; apply Hnot; set_solver. }
  assert (Htwo : ∀ name v1 v2,
            name ∉ overridden_by_layer_models →
            ({[ "_view_name" := v1; "_model_name" := v2 ]} : gmap string JsValue)
              !! name = None).
  { intros name v1 v2 Hnot. unfold overridden_by_layer_models in Hnot.
    rewrite !lookup_insert_ne by (intros <-; apply Hnot; set_solver).
    apply lookup_singleton_ne. intros <-; apply Hnot; set_solver. }
  assert (Hbase : ∀ name, name ∉ overridden_by_layer_models →
            GMapsLayerModel_defaults base !! name = base !! name).
  { intros name Hnot. unfold GMapsLayerModel_defaults.
    apply Hother. apply Hfour. exact Hnot. }
  split; [|split; [|split; [|split; [|split; [|split]]]]].
  - unfold view_class_of, model_of_defaults, DirectionsLayerModel_defaults.
    cbn [attributes]. rewrite (Hview _ _ (JString "DirectionsLayerView")); reflexivity.
  - unfold view_class_of, model_of_defaults, SimpleHeatmapLayerModel_defaults.
    cbn [attributes]. rewrite (Hview _ _ (JString "SimpleHeatmapLayerView")); reflexivity.
  - unfold view_class_of, model_of_defaults, WeightedHeatmapLayerModel_defaults.
    cbn [attributes]. rewrite (Hview _ _ (JString "WeightedHeatmapLayerView")); reflexivity.
  - unfold view_class_of, model_of_defaults, GMapsLayerModel_defaults.
    cbn [attributes]. rewrite (Hview _ _ (JString "GMapsLayerView")); reflexivity.
  - assert (Hg : GMapsLayerModel_defaults base !! "_view_module"
                 = Some (JString "jupyter-gmaps")
                 ∧ GMapsLayerModel_defaults base !! "_model_module"
                   = Some (JString "jupyter-gmaps")).
    { unfold GMapsLayerModel_defaults, underscore_extend.
      split; apply lookup_union_Some_l; reflexivity. }
    assert (Hchild : ∀ v1 v2,
              underscore_extend (GMapsLayerModel_defaults base)
                {[ "_view_name" := v1; "_model_name" := v2 ]} !! "_view_module"
              = Some (JString "jupyter-gmaps")
              ∧ underscore_extend (GMapsLayerModel_defaults base)
                  {[ "_view_name" := v1; "_model_name" := v2 ]} !! "_model_module"
                = Some (JString "jupyter-gmaps")).
    { intros v1 v2. rewrite !Hother by reflexivity. exact Hg. }
    intros defaults Hin.
    apply elem_of_cons in Hin as [-> | Hin]; [exact Hg|].
    apply elem_of_cons in Hin as [-> | Hin];
      [unfold DirectionsLayerModel_defaults; apply Hchild|].
    apply elem_of_cons in Hin as [-> | Hin];
      [unfold SimpleHeatmapLayerModel_defaults; apply Hchild|].
    apply elem_of_cons in Hin as [-> | Hin];
      [unfold WeightedHeatmapLayerModel_defaults; apply Hchild|].
    apply elem_of_cons in Hin as [-> | Hin].
    + unfold PlainmapModel_defaults, underscore_extend.
      split; apply lookup_union_Some_l; reflexivity.
    + apply elem_of_nil in Hin. contradiction.
  - intros defaults name Hin Hnot.
    apply elem_of_cons in Hin as [-> | Hin]; [|
    apply elem_of_cons in Hin as [-> | Hin]; [|
    apply elem_of_cons in Hin as [-> | Hin]; [|
    apply elem_of_cons in Hin as [-> | Hin]]]].
    + apply Hbase. exact Hnot.
    + unfold DirectionsLayerModel_defaults. rewrite Hother by (apply Htwo; exact Hnot).
      apply Hbase. exact Hnot.
    + unfold SimpleHeatmapLayerModel_defaults. rewrite Hother by (apply Htwo; exact Hnot).
      apply Hbase. exact Hnot.
    + unfold WeightedHeatmapLayerModel_defaults.
      rewrite Hother by (apply Htwo; exact Hnot). apply Hbase. exact Hnot.
    + apply elem_of_nil in Hin. contradiction.
  - intros name Hnot Hw Hh. unfold PlainmapModel_defaults. apply Hother.
    unfold overridden_by_layer_models in Hnot.
    rewrite !lookup_insert_ne
      by (first [congruence | intros <-; apply Hnot; set_solver]).
    apply lookup_singleton_ne. congruence.
Qed.

(** ** Rendering the map view more than once *)





(** ** The map surface *)

(** The first pass of the synchronizer's add handler over a sequence of
    models: the entries it makes and what it queues. *)
Lemma map_M_addLayerModel_entries added w :
  map_M (λ m, do p <- PlainmapView_addLayerModel m;
              ret {| ve_model := m; ve_promise := p |}) added w
  = Ok (first_entries added (length (promises w)))
      (with_jobs
         (jobs w ++ zip_with create_view_job added
                      (seq (length (promises w)) (length added)))
         (with_promises (promises w ++ replicate (length added) (pending false)) w)).
Proof.
  revert w. induction added as [|m added IH]; intros w.
  - unfold first_entries. cbn [map_M length seq zip_with replicate]. rewrite !app_nil_r.
    unfold ret, with_jobs, with_promises. cbn. rewrite world_eta. reflexivity.
  - cbn [map_M].
    set (w1 := with_jobs (jobs w ++ [create_view_job m (length (promises w))])
                 (with_promises (promises w ++ [pending false]) w)).
    unfold PlainmapView_addLayerModel, WidgetView_create_child_view, new_promise.
    munfold. mstep. fold w1. rewrite (bind_Ok _ _ _ _ _ (IH w1)). mstep.
    unfold ret. unfold first_entries, w1, with_jobs, with_promises. cbn.
    rewrite length_app. cbn [length].
    replace (length (promises w) + 1)%nat with (S (length (promises w))) by lia.
    rewrite <- !app_assoc. reflexivity.
Qed.

(** X6.  The load callback of the map view, on a view rendered but not
    yet loaded (no layer views yet) whose model has data bounds of at
    least two pairs: the map surface is created and kept by the view, the
    viewport is fit to the model's current [data_bounds] (the bounds
    captured by [render] and passed to [updateBounds] are not used), one
    view creation is queued per layer of the model, in sequence order and
    duplicates included, each with a fresh pending promise, and the
    redraw timer is set. *)
Theorem PlainmapView_loaded_first_pass initialBounds w pairBL pairTR more :
  data_bounds (map_model w) = Some (pairBL :: pairTR :: more) →
  layerViews (map_view w) = Some [] →
  let L := layers (map_model w) in
  ∃ w',
    PlainmapView_loaded initialBounds w = Ok tt w'
    ∧ pv_map (map_view w') = Some (maps w)
    ∧ maps w' = S (maps w)
    ∧ trace w'
      = (trace w ++ [new_Map (maps w); fitBounds (maps w) (bounds_of pairBL pairTR)])%list
    ∧ jobs w'
      = (jobs w ++ zip_with create_view_job L (seq (length (promises w)) (length L)))%list
    ∧ promises w' = (promises w ++ replicate (length L) (pending false))%list
    ∧ layerViews (map_view w') = Some (first_entries L (length (promises w)))
    ∧ timers w' = S (timers w)
    ∧ layer_views w' = layer_views w
    ∧ map_model w' = map_model w.
Proof.
  intros Hbounds Hviews L.
  eexists. split.
  - unfold PlainmapView_loaded, new_Map_, PlainmapView_updateBounds, ViewList_update.
    munfold. mstep. rewrite Hbounds.
    cbn [destructure_bounds destructure_point lookup list_lookup Result_bind lift].
    mstep. cbn [pv_map with_pv_map layerViews]. mstep.
    cbn [pv_map with_pv_map layerViews]. rewrite Hviews. mstep.
    rewrite !filter_nil. cbn [fmap list_fmap for_each]. mstep.
    rewrite (filter_all (λ m, m ∉ [])) by (intros x _; apply not_elem_of_nil).
    rewrite (bind_Ok _ _ _ _ _ (map_M_addLayerModel_entries _ _)). mstep.
    unfold modify. reflexivity.
  - wsimpl. cbn [pv_map with_pv_map layerViews with_layerViews].
    rewrite <- app_assoc. repeat split.
Qed.

(** The sample map view, rendered and with the library loaded. *)
Lemma sample_first_pass :
  ∃ w',
    PlainmapView_loaded None sample_ready = Ok tt w'
    ∧ trace w'
      = (trace sample_ready
         ++ [new_Map 0; fitBounds 0 (bounds_of [51.4; -0.3] [51.7; 0.3])])%list%Q
    ∧ jobs w' = [create_view_job "heatmap-1" 0; create_view_job "directions-1" 1;
                 create_view_job "heatmap-2" 2].
Proof.
  destruct (PlainmapView_loaded_first_pass None sample_ready
              [51.4; -0.3]%Q [51.7; 0.3]%Q [])
    as (w' & Hrun & _ & _ & Htrace & Hjobs & _).
  - reflexivity.
  - reflexivity.
  - exists w'. split; [exact Hrun|]. split; [exact Htrace | exact Hjobs].
Defined.

(** X7.  The load callback of the map view on a model whose
    [data_bounds] cannot be destructured (absent, as in a map model fresh
    from its defaults, or with fewer than two pairs): the map surface is
    created and kept by the view, then [updateBounds] throws; the layers
    are never handed to the synchronizer, so no layer view is queued, and
    the redraw timer is not set. *)
Theorem PlainmapView_loaded_without_bounds initialBounds w e :
  destructure_bounds (data_bounds (map_model w)) = Raise e →
  ∃ w',
    PlainmapView_loaded initialBounds w = Throw e w'
    ∧ pv_map (map_view w') = Some (maps w)
    ∧ trace w' = (trace w ++ [new_Map (maps w)])%list
    ∧ jobs w' = jobs w
    ∧ promises w' = promises w
    ∧ layerViews (map_view w') = layerViews (map_view w)
    ∧ timers w' = timers w.
Proof.
  intros Hbounds. eexists. split.
  - unfold PlainmapView_loaded, new_Map_, PlainmapView_updateBounds.
    munfold. mstep. rewrite Hbounds. mstep. reflexivity.
  - wsimpl. cbn [pv_map with_pv_map layerViews]. repeat split.
Qed.

(** The sample page with a map model that has no data bounds. *)
Lemma sample_unbounded_not_synchronized :
  data_bounds (new_PlainmapModel ∅) = None
  ∧ ∃ w',
      PlainmapView_loaded None sample_unbounded
      = Throw (TypeError "undefined is not iterable") w'
      ∧ trace w' = (trace sample_unbounded ++ [new_Map 0])%list
      ∧ jobs w' = [].
Proof.
  split; [reflexivity|].
  destruct (PlainmapView_loaded_without_bounds None sample_unbounded
              (TypeError "undefined is not iterable"))
    as (w' & Hrun & _ & Htrace & Hjobs & _).
  - reflexivity.
  - exists w'. split; [exact Hrun|]. split; [exact Htrace | exact Hjobs].
Defined.

(** ** Heat map views *)

(** The load callback of a heat map view, run. *)
Lemma primitive_of_loaded this w view model dataAsGoogle :
  layer_views w !! this = Some view →
  layer_models w !! lv_model view = Some model →
  getData_of (lv_class view) (data model) = Some dataAsGoogle →
  HeatmapLayerBaseView_loaded this w
  = Ok tt
      (with_layer_views
         (<[this := with_heatmap (Some (length (heatmaps w))) view]> (layer_views w))
         (with_trace (trace w ++ [new_HeatmapLayer (length (heatmaps w))])
            (with_heatmaps
               (heatmaps w
                ++ [{| hm_data := dataAsGoogle;
                       radius := prop (attributes model) "point_radius";
                       maxIntensity := prop (attributes model) "max_intensity";
                       hm_map := None |}])
               w))).
Proof.
  intros Hview Hmodel Hdata.
  assert (Hget : LayerView_getData this w = Ok dataAsGoogle w).
  { unfold LayerView_getData. munfold. mstep. rewrite Hview. mstep.
    rewrite Hmodel. mstep.
    destruct (lv_class view); cbn [getData_of] in Hdata;
      [discriminate Hdata | injection Hdata as <- ..]; reflexivity. }
  unfold HeatmapLayerBaseView_loaded, new_HeatmapLayer_.
  rewrite (bind_Ok _ _ _ _ _ Hget). munfold. mstep. rewrite Hview. mstep.
  rewrite Hmodel. mstep. rewrite Hview. mstep. unfold modify. reflexivity.
Qed.

(** X8.  The load callback of a heat map view creates the primitive from
    the model as it is when the callback runs: the data converted by the
    class's [getData], [radius] and [maxIntensity] from the model's
    [point_radius] and [max_intensity].  The primitive is created off the
    map, the view keeps it, and every primitive created before stays as
    it was. *)
Theorem HeatmapLayerBaseView_loaded_seeds this w view model dataAsGoogle :
  layer_views w !! this = Some view →
  layer_models w !! lv_model view = Some model →
  getData_of (lv_class view) (data model) = Some dataAsGoogle →
  ∃ w',
    HeatmapLayerBaseView_loaded this w = Ok tt w'
    ∧ heatmaps w'
      = (heatmaps w
         ++ [{| hm_data := dataAsGoogle;
                radius := prop (attributes model) "point_radius";
                maxIntensity := prop (attributes model) "max_intensity";
                hm_map := None |}])%list
    ∧ layer_views w'
      = <[this := with_heatmap (Some (length (heatmaps w))) view]> (layer_views w)
    ∧ trace w' = (trace w ++ [new_HeatmapLayer (length (heatmaps w))])%list
    ∧ length dataAsGoogle = length (data model)
    ∧ layer_models w' = layer_models w.
Proof.
  intros Hview Hmodel Hdata. eexists.
  split; [exact (primitive_of_loaded this w view model dataAsGoogle Hview Hmodel Hdata)|].
  wsimpl. repeat split.
  destruct (lv_class view); cbn [getData_of] in Hdata.
  - discriminate Hdata.
  - injection Hdata as <-. unfold SimpleHeatmapLayerView_getData. apply length_fmap.
  - injection Hdata as <-. unfold WeightedHeatmapLayerView_getData. apply length_fmap.
Qed.

(** The heat map view of the sample page whose primitive waits for the
    library. *)
Lemma sample_unloaded_seeded :
  ∃ w' view,
    layer_views sample_unloaded !! 0%nat = Some view
    ∧ heatmap view = None
    ∧ HeatmapLayerBaseView_loaded 0 sample_unloaded = Ok tt w'
    ∧ heatmaps w'
      = [{| hm_data := [plain_location (coordinates [51.5; -0.1]);
                        plain_location (coordinates [51.6; 0.1])]%Q;
            radius := JNumber 8%Q; maxIntensity := JNull; hm_map := None |}].
Proof.
  destruct (HeatmapLayerBaseView_loaded_seeds 0 sample_unloaded
              {| lv_class := SimpleHeatmapLayerView; lv_model := "heatmap-1";
                 directionsDisplay := None; response := None; heatmap := None;
                 lv_removed := false |}
              (with_lm_listeners (heatmap_subscriptions 0) sample_heatmap_model)
              (SimpleHeatmapLayerView_getData (data sample_heatmap_model)))
    as (w' & Hrun & Hheat & _).
  - vm_compute. reflexivity.
  - vm_compute. reflexivity.
  - reflexivity.
  - exists w'. eexists. split; [vm_compute; reflexivity|]. split; [reflexivity|].
    split; [exact Hrun|]. rewrite Hheat. vm_compute. reflexivity.
Defined.

(** X9.  A change of [point_radius] (or [max_intensity]) that arrives
    after a heat map view has subscribed and before its primitive exists
    throws in the view's update callback: the new value is stored in the
    model, nothing else changes, and the later subscribers are not
    notified.  The value is not lost: the primitive is created with it
    when the load callback runs. *)
Theorem change_before_primitive name event cb property value w m model v view rest
    dataAsGoogle :
  partial_update name event cb property →
  layer_models w !! m = Some model →
  lm_listeners model = (heatmap_subscriptions v ++ rest)%list →
  layer_views w !! v = Some view →
  lv_model view = m →
  heatmap view = None →
  getData_of (lv_class view) (data model) = Some dataAsGoogle →
  prop (attributes model) name ≠ value →
  let model' := with_attributes (<[name := value]> (attributes model)) model in
  let w1 := with_layer_models (<[m := model']> (layer_models w)) w in
  LayerModel_set m name value w = Throw (TypeError "heatmap") w1
  ∧ ∃ w2 x,
      HeatmapLayerBaseView_loaded v w1 = Ok tt w2
      ∧ heatmaps w2 = (heatmaps w ++ [x])%list
      ∧ get_property x property = value
      ∧ hm_data x = dataAsGoogle.
Proof.
  intros Hpu Hmodel Hsub Hview Hm Hnone Hdata Hne model' w1.
  split.
  - unfold LayerModel_set. munfold. mstep. rewrite Hmodel. mstep.
    rewrite decide_False by exact Hne. mstep.
    rewrite (partial_update_event _ _ _ _ Hpu), Hsub.
    fold model'. fold w1.
    destruct Hpu; cbn [heatmap_subscriptions app trigger l_event l_callback l_context
                       run_callback].
    + rewrite decide_True by reflexivity.
      unfold HeatmapLayerBaseView_updateRadius. munfold. mstep.
      unfold w1 at 1. wsimpl. rewrite Hview. mstep. rewrite Hnone. mstep. reflexivity.
    + rewrite decide_False by discriminate. mstep.
      rewrite decide_True by reflexivity.
      unfold HeatmapLayerBaseView_updateMaxIntensity. munfold. mstep.
      unfold w1 at 1. wsimpl. rewrite Hview. mstep. rewrite Hnone. mstep. reflexivity.
  - assert (Hmodel' : layer_models w1 !! lv_model view = Some model').
    { unfold w1. wsimpl. rewrite Hm. apply lookup_insert_eq. }
    eexists _, _.
    split; [exact (primitive_of_loaded v w1 view model' dataAsGoogle Hview Hmodel' Hdata)|].
    split; [reflexivity|]. split; [|reflexivity].
    unfold model', prop. cbn [attributes with_attributes].
    destruct Hpu; unfold get_property.
    + rewrite decide_True by reflexivity. cbn [radius].
      rewrite lookup_insert_eq. reflexivity.
    + rewrite decide_False by discriminate. rewrite decide_True by reflexivity.
      cbn [maxIntensity]. rewrite lookup_insert_eq. reflexivity.
Qed.

(** The radius of the first heat map of the sample page changed while
    its primitive waits for the library. *)
Lemma radius_changed_on_sample_unloaded :
  ∃ w1 w2 x,
    LayerModel_set "heatmap-1" "point_radius" (JNumber 12%Q) sample_unloaded
    = Throw (TypeError "heatmap") w1
    ∧ prop (attributes (default sample_heatmap_model (layer_models w1 !! "heatmap-1")))
        "point_radius" = JNumber 12%Q
    ∧ HeatmapLayerBaseView_loaded 0 w1 = Ok tt w2
    ∧ heatmaps w2 = [x]
    ∧ radius x = JNumber 12%Q.
Proof.
  destruct (change_before_primitive "point_radius" change_point_radius cb_updateRadius
              "radius" (JNumber 12%Q) sample_unloaded "heatmap-1"
              (with_lm_listeners (heatmap_subscriptions 0) sample_heatmap_model) 0%nat
              {| lv_class := SimpleHeatmapLayerView; lv_model := "heatmap-1";
                 directionsDisplay := None; response := None; heatmap := None;
                 lv_removed := false |}
              []
              (SimpleHeatmapLayerView_getData (data sample_heatmap_model)))
    as (Hset & w2 & x & Hrun & Hheat & Hvalue & _).
  - constructor.
  - vm_compute. reflexivity.
  - reflexivity.
  - vm_compute. reflexivity.
  - reflexivity.
  - reflexivity.
  - reflexivity.
  - vm_compute. intros [=].
  - eexists _, w2, x. split; [exact Hset|].
    split; [vm_compute; reflexivity|]. split; [exact Hrun|].
    split; [exact Hheat | exact Hvalue].
Defined.

(** ** The directions view *)



(** ** One model, several views *)

(** X11.  A change of [point_radius] (or [max_intensity]) reaches every
    rendered heat map view of the model: after the change the primitive
    of each subscribed view holds the new value, on whichever map the
    view is. *)
Theorem change_reaches_every_view name event cb property value w m model :
  partial_update name event cb property →
  layer_models w !! m = Some model →
  subscribers_rendered w m →
  prop (attributes model) name ≠ value →
  ∃ w',
    LayerModel_set m name value w = Ok tt w'
    ∧ layer_views w' = layer_views w
    ∧ length (heatmaps w') = length (heatmaps w)
    ∧ ∀ v view h,
        {| l_event := event; l_callback := cb; l_context := ctx_layer_view v |}
          ∈ lm_listeners model →
        layer_views w !! v = Some view →
        heatmap view = Some h →
        ∃ x', heatmaps w' !! h = Some x' ∧ get_property x' property = value.
Proof.
  intros Hpu Hm Hsub Hne.
  set (model' := with_attributes (<[name := value]> (attributes model)) model).
  set (w0 := with_layer_models (<[m := model']> (layer_models w)) w).
  assert (Hm0 : layer_models w0 !! m = Some model').
  { unfold w0. wsimpl. apply lookup_insert_eq. }
  assert (Hval : prop (attributes model') name = value).
  { unfold model', prop. cbn [attributes with_attributes].
    rewrite lookup_insert_eq. reflexivity. }
  destruct (trigger_partial_update name event cb property value w0 m model'
              (lm_listeners model) Hpu Hm0 Hval (λ l Hl, Hsub model l Hm Hl) w0
              (updated_in_place_refl _ _ _))
    as (w' & Hrun & (Hvw & _ & Hlw & _) & Hdone).
  exists w'. split.
  { unfold LayerModel_set. munfold. mstep. rewrite Hm. mstep.
    rewrite decide_False by exact Hne. mstep.
    rewrite (partial_update_event _ _ _ _ Hpu). exact Hrun. }
  split; [exact Hvw|]. split; [exact Hlw|].
  intros v view h Hin Hv Hh.
  exact (Hdone _ Hin eq_refl v view h eq_refl Hv Hh).
Qed.

(** The first heat map layer of the sample page, listed twice: a change
    of its radius reaches both primitives. *)
Lemma radius_changed_on_shared_layer :
  ∃ w' x0 x1,
    LayerModel_set "heatmap-1" "point_radius" (JNumber 12%Q) sample_shared = Ok tt w'
    ∧ heatmaps w' = [x0; x1]
    ∧ radius x0 = JNumber 12%Q
    ∧ radius x1 = JNumber 12%Q.
Proof.
  destruct (change_reaches_every_view "point_radius" change_point_radius cb_updateRadius
              "radius" (JNumber 12%Q) sample_shared "heatmap-1"
              (with_lm_listeners (heatmap_subscriptions 0 ++ heatmap_subscriptions 1)
                 sample_heatmap_model))
    as (w' & Hrun & _ & Hlen & Hall).
  - constructor.
  - vm_compute. reflexivity.
  - intros model l Hmodel Hl.
    assert (Hls : lm_listeners model
                  = (heatmap_subscriptions 0 ++ heatmap_subscriptions 1)%list).
    { vm_compute in Hmodel. injection Hmodel as <-. reflexivity. }
    rewrite Hls in Hl. cbn [heatmap_subscriptions app] in Hl.
    repeat (apply elem_of_cons in Hl as [-> | Hl]).
    + eexists 0%nat, _, 0%nat. split; [left; reflexivity|].
      split; [vm_compute; reflexivity|]. repeat split. vm_compute. lia.
    + eexists 0%nat, _, 0%nat. split; [right; reflexivity|].
      split; [vm_compute; reflexivity|]. repeat split. vm_compute. lia.
    + eexists 1%nat, _, 1%nat. split; [left; reflexivity|].
      split; [vm_compute; reflexivity|]. repeat split. vm_compute. lia.
    + eexists 1%nat, _, 1%nat. split; [right; reflexivity|].
      split; [vm_compute; reflexivity|]. repeat split. vm_compute. lia.
    + apply elem_of_nil in Hl. contradiction.
  - vm_compute. intros [=].
  - destruct (Hall 0%nat
                {| lv_class := SimpleHeatmapLayerView; lv_model := "heatmap-1";
                   directionsDisplay := None; response := None; heatmap := Some 0%nat;
                   lv_removed := false |} 0%nat)
      as (x0 & Hx0 & Hr0).
    { vm_compute. apply list_elem_of_here. }
    { vm_compute. reflexivity. }
    { reflexivity. }
    destruct (Hall 1%nat
                {| lv_class := SimpleHeatmapLayerView; lv_model := "heatmap-1";
                   directionsDisplay := None; response := None; heatmap := Some 1%nat;
                   lv_removed := false |} 1%nat)
      as (x1 & Hx1 & Hr1).
    { cbn [lm_listeners with_lm_listeners heatmap_subscriptions app].
      apply list_elem_of_further, list_elem_of_further, list_elem_of_here. }
    { vm_compute. reflexivity. }
    { reflexivity. }
    exists w', x0, x1. split; [exact Hrun|].
    change (length (heatmaps sample_shared)) with 2%nat in Hlen.
    destruct (heatmaps w') as [|y0 [|y1 [|y2 l]]]; try discriminate Hlen.
    cbn in Hx0, Hx1. injection Hx0 as ->. injection Hx1 as ->.
    split; [reflexivity|]. split; [exact Hr0 | exact Hr1].
Defined.

(** * The life of a layer view *)

(** ** Rules for triples *)

Lemma hoare_bind {A B} P (m : M A) Q (k : A → M B) R E :
  hoare P m Q E → (∀ a, hoare (Q a) (k a) R E) → hoare P (bind m k) R E.
Proof.
  intros Hm Hk w Hw. unfold bind. specialize (Hm w Hw).
  destruct (m w) as [a w'|e w']; [apply Hk; exact Hm | exact Hm].
Qed.

Lemma hoare_try_catch {A} P (m : M A) Q E' (handler : JsError → M A) E :
  hoare P m Q E' → (∀ e, hoare E' (handler e) Q E) → hoare P (try_catch m handler) Q E.
Proof.
  intros Hm Hh w Hw. unfold try_catch. specialize (Hm w Hw).
  destruct (m w) as [a w'|e w']; [exact Hm | apply Hh; exact Hm].
Qed.

Lemma hoare_weaken {A} (P P' : World → Prop) (m : M A) (Q Q' : A → World → Prop)
    (E E' : World → Prop) :
  hoare P m Q E →
  (∀ w, P' w → P w) → (∀ a w, Q a w → Q' a w) → (∀ w, E w → E' w) →
  hoare P' m Q' E'.
Proof.
  intros Hm HP HQ HE w Hw. specialize (Hm w (HP w Hw)).
  destruct (m w) as [a w'|e w']; [apply HQ | apply HE]; exact Hm.
Qed.

Section Keeps.
Context (I : World → Prop).

Lemma keeps_ret {A} (a : A) : keeps I (ret a).
Proof. intros w Hw. exact Hw. Qed.

Lemma keeps_throw {A} e : keeps I (@throw A e).
Proof. intros w Hw. exact Hw. Qed.

Lemma keeps_gets {A} (g : World → A) : keeps I (gets g).
Proof. intros w Hw. exact Hw. Qed.

Lemma keeps_deref {A} what (o : option A) : keeps I (deref what o).
Proof. intros w Hw. destruct o; exact Hw. Qed.

Lemma keeps_lift {A} (r : Result A) : keeps I (lift r).
Proof. intros w Hw. destruct r; exact Hw. Qed.

Lemma keeps_modify g : (∀ w, I w → I (g w)) → keeps I (modify g).
Proof. intros H w Hw. apply H. exact Hw. Qed.

Lemma keeps_bind {A B} (m : M A) (k : A → M B) :
  keeps I m → (∀ a, keeps I (k a)) → keeps I (bind m k).
Proof. intros Hm Hk. exact (hoare_bind _ _ _ _ _ _ Hm Hk). Qed.

Lemma keeps_try_catch {A} (m : M A) (handler : JsError → M A) :
  keeps I m → (∀ e, keeps I (handler e)) → keeps I (try_catch m handler).
Proof. intros Hm Hh. exact (hoare_try_catch _ _ _ _ _ _ Hm Hh). Qed.

Lemma keeps_for_each {A} (g : A → M unit) (l : list A) :
  (∀ a, keeps I (g a)) → keeps I (for_each g l).
Proof.
  intros Hg. induction l as [|a l IH]; cbn [for_each].
  - apply keeps_ret.
  - apply keeps_bind; [apply Hg | intros _; exact IH].
Qed.

Lemma keeps_map_M {A B} (g : A → M B) (l : list A) :
  (∀ a, keeps I (g a)) → keeps I (map_M g l).
Proof.
  intros Hg. induction l as [|a l IH]; cbn [map_M].
  - apply keeps_ret.
  - apply keeps_bind; [apply Hg | intros b].
    apply keeps_bind; [exact IH | intros bs; apply keeps_ret].
Qed.
End Keeps.

Create HintDb keeps.

(** Breaks a computation down to its reads and writes; the writes are
    left to [write]. *)
Ltac keeps_step write :=
  lazymatch goal with
  | |- keeps _ (ret _) => apply keeps_ret
  | |- keeps _ (throw _) => apply keeps_throw
  | |- keeps _ (gets _) => apply keeps_gets
  | |- keeps _ (deref _ _) => apply keeps_deref
  | |- keeps _ (lift _) => apply keeps_lift
  | |- keeps _ (modify _) => apply keeps_modify; intros ? ?; cbv beta; write
  | |- keeps _ (bind _ _) => apply keeps_bind; [|intros ?]
  | |- keeps _ (try_catch _ _) => apply keeps_try_catch; [|intros ?]
  | |- keeps _ (for_each _ _) => apply keeps_for_each; intros ?
  | |- keeps _ (map_M _ _) => apply keeps_map_M; intros ?
  | |- keeps _ (match ?x with _ => _ end) => destruct x
  | |- keeps _ _ => solve [auto 2 with keeps nocore]
  end.

Ltac keeps_with write := munfold; unfold emit; repeat keeps_step write.

(** ** What the code keeps

    Everything but the construction of a view, the call of
    [addToMapView] and the queueing of an add reaction keeps a stable
    invariant. *)
Section StableCode.
Context (I : World → Prop) (HI : stable I).

Ltac write :=
  match goal with
  | |- I (with_loader _ _) => apply (st_loader _ HI)
  | |- I (with_layer_models _ _) => apply (st_layer_models _ HI)
  | |- I (with_map_model _ _) => apply (st_map_model _ HI)
  | |- I (with_map_view _ _) => apply (st_map_view _ HI)
  | |- I (with_heatmaps _ _) => apply (st_heatmaps _ HI)
  | |- I (with_renderers _ _) => apply (st_renderers _ HI)
  | |- I (with_maps _ _) => apply (st_maps _ HI)
  | |- I (with_promises _ _) => apply (st_promises _ HI)
  | |- I (with_routes _ _) => apply (st_routes _ HI)
  | |- I (with_timers _ _) => apply (st_timers _ HI)
  | |- I (with_layer_views (<[_ := _]> _) _) => apply (st_view _ HI)
  | |- I (with_trace _ _) => apply (st_emit _ HI); [reflexivity|]
  | |- I (with_jobs _ _) => apply (st_enqueue _ HI); [reflexivity|]
  end; assumption.

Ltac go := keeps_with write.

Lemma keeps_new_HeatmapLayer options : keeps I (new_HeatmapLayer_ options).
Proof. unfold new_HeatmapLayer_. go. Qed.

Lemma keeps_setMap h on_map : keeps I (HeatmapLayer_setMap h on_map).
Proof. unfold HeatmapLayer_setMap. go. Qed.

Lemma keeps_set h property value : keeps I (HeatmapLayer_set h property value).
Proof. unfold HeatmapLayer_set. go. Qed.

Lemma keeps_new_DirectionsRenderer on_map : keeps I (new_DirectionsRenderer_ on_map).
Proof. unfold new_DirectionsRenderer_. go. Qed.

Lemma keeps_setDirections r result : keeps I (DirectionsRenderer_setDirections r result).
Proof. unfold DirectionsRenderer_setDirections. go. Qed.

Lemma keeps_route v request : keeps I (DirectionsService_route v request).
Proof. unfold DirectionsService_route. go. Qed.

Lemma keeps_new_Map : keeps I new_Map_.
Proof. unfold new_Map_. go. Qed.

Lemma keeps_load callback now : keeps I now → keeps I (GoogleMapsLoader_load callback now).
Proof. intros Hnow. unfold GoogleMapsLoader_load. go. Qed.

Hint Resolve keeps_new_HeatmapLayer keeps_setMap keeps_set keeps_new_DirectionsRenderer
  keeps_setDirections keeps_route keeps_new_Map : keeps.

Lemma keeps_updateRadius v : keeps I (HeatmapLayerBaseView_updateRadius v).
Proof. unfold HeatmapLayerBaseView_updateRadius. go. Qed.

Lemma keeps_updateMaxIntensity v : keeps I (HeatmapLayerBaseView_updateMaxIntensity v).
Proof. unfold HeatmapLayerBaseView_updateMaxIntensity. go. Qed.

Lemma keeps_updateBounds : keeps I PlainmapView_updateBounds.
Proof. unfold PlainmapView_updateBounds. go. Qed.

Hint Resolve keeps_updateRadius keeps_updateMaxIntensity keeps_updateBounds : keeps.

Lemma keeps_run_callback callback context : keeps I (run_callback callback context).
Proof. unfold run_callback. go. Qed.

Lemma keeps_trigger listeners event : keeps I (trigger listeners event).
Proof.
  induction listeners as [|l rest IH]; cbn [trigger].
  - apply keeps_ret.
  - apply keeps_bind; [|intros _; exact IH].
    destruct (decide (l_event l = event));
      [apply keeps_run_callback | apply keeps_ret].
Qed.

Hint Resolve keeps_trigger : keeps.

Lemma keeps_LayerModel_set m name value : keeps I (LayerModel_set m name value).
Proof. unfold LayerModel_set. go. Qed.

Lemma keeps_set_data_bounds value : keeps I (MapModel_set_data_bounds value).
Proof. unfold MapModel_set_data_bounds. go. Qed.

Lemma keeps_touch v : keeps I (WidgetView_touch v).
Proof. unfold WidgetView_touch. go. Qed.

Lemma keeps_modelEvents v : keeps I (HeatmapLayerBaseView_modelEvents v).
Proof. unfold HeatmapLayerBaseView_modelEvents. go. Qed.

Lemma keeps_getData v : keeps I (LayerView_getData v).
Proof. unfold LayerView_getData. go. Qed.

Hint Resolve keeps_LayerModel_set keeps_set_data_bounds keeps_touch keeps_modelEvents
  keeps_getData : keeps.

Lemma keeps_loaded v : keeps I (HeatmapLayerBaseView_loaded v).
Proof. unfold HeatmapLayerBaseView_loaded. go. Qed.

Hint Resolve keeps_loaded : keeps.

Lemma keeps_heatmap_render v : keeps I (HeatmapLayerBaseView_render v).
Proof.
  unfold HeatmapLayerBaseView_render.
  apply keeps_bind; [go | intros _; apply keeps_load; go].
Qed.

Lemma keeps_heatmap_addToMapView v : keeps I (HeatmapLayerBaseView_addToMapView v).
Proof. unfold HeatmapLayerBaseView_addToMapView. go. Qed.

Lemma keeps_directions_render v : keeps I (DirectionsLayerView_render v).
Proof. unfold DirectionsLayerView_render. go. Qed.

Lemma keeps_routed v result status : keeps I (DirectionsLayerView_routed v result status).
Proof. unfold DirectionsLayerView_routed. go. Qed.

Hint Resolve keeps_heatmap_render keeps_heatmap_addToMapView keeps_directions_render
  keeps_routed : keeps.

Lemma keeps_render v : keeps I (LayerView_render v).
Proof. unfold LayerView_render. go. Qed.

(** [addToMapView], once the call is on the trace. *)
Lemma keeps_addToMapView_body v :
  keeps I (do view <- get_layer_view v;
           match lv_class view with
           | DirectionsLayerView => DirectionsLayerView_addToMapView v
           | SimpleHeatmapLayerView | WeightedHeatmapLayerView =>
               HeatmapLayerBaseView_addToMapView v
           end).
Proof. unfold DirectionsLayerView_addToMapView. go. Qed.

Lemma keeps_new_promise : keeps I new_promise.
Proof. unfold new_promise. go. Qed.

Lemma keeps_settle p x : keeps I (settle p x).
Proof. unfold settle. go. Qed.

Hint Resolve keeps_new_promise keeps_settle : keeps.

Lemma keeps_reject p e : keeps I (reject p e).
Proof. unfold reject. go. Qed.

Lemma keeps_fulfil p v : keeps I (fulfil p v).
Proof. unfold fulfil. go. Qed.

Lemma keeps_addLayerModel childModel : keeps I (PlainmapView_addLayerModel childModel).
Proof. unfold PlainmapView_addLayerModel, WidgetView_create_child_view. go. Qed.

Lemma keeps_remove v : keeps I (View_remove v).
Proof. unfold View_remove. go. Qed.

Lemma keeps_then_remove p : keeps I (then_remove p).
Proof. unfold then_remove. go. Qed.

Hint Resolve keeps_reject keeps_fulfil keeps_addLayerModel keeps_remove
  keeps_then_remove : keeps.

Lemma keeps_route_done v result status : keeps I (route_done v result status).
Proof. unfold route_done. go. Qed.

Lemma keeps_update new_models : keeps I (ViewList_update new_models).
Proof. unfold ViewList_update. go. Qed.

Hint Resolve keeps_update : keeps.

Lemma keeps_map_loaded initialBounds : keeps I (PlainmapView_loaded initialBounds).
Proof. unfold PlainmapView_loaded. go. Qed.

Hint Resolve keeps_map_loaded : keeps.

Lemma keeps_displayed initialBounds : keeps I (PlainmapView_displayed initialBounds).
Proof. unfold PlainmapView_displayed, GoogleMapsLoader_load. go. Qed.

Lemma keeps_library_loaded : keeps I library_loaded.
Proof. unfold library_loaded, run_load_callback. go. Qed.

Lemma keeps_redraw : keeps I PlainmapView_redraw.
Proof. unfold PlainmapView_redraw. go. Qed.

Lemma keeps_map_render release : keeps I (PlainmapView_render release).
Proof.
  unfold PlainmapView_render, ConfigurationMixin_loadConfiguration,
    PlainmapView_modelEvents. go.
Qed.
End StableCode.

(** ** The invariant *)

Lemma constructed_views_snoc t e :
  (∀ v m, e ≠ new_view v m) → constructed_views (t ++ [e]) = constructed_views t.
Proof.
  intros He. unfold constructed_views. rewrite omap_app.
  destruct e; cbn; try apply app_nil_r. exfalso. eapply He. reflexivity.
Qed.

Lemma added_to_map_snoc t e :
  (∀ v, e ≠ call_addToMapView v) → added_to_map (t ++ [e]) = added_to_map t.
Proof.
  intros He. unfold added_to_map. rewrite omap_app.
  destruct e; cbn; try apply app_nil_r. exfalso. eapply He. reflexivity.
Qed.

Lemma waiting_to_be_added_snoc js j :
  is_add_job j = false → waiting_to_be_added (js ++ [j]) = waiting_to_be_added js.
Proof.
  intros Hj. unfold waiting_to_be_added. rewrite omap_app.
  destruct j; cbn; try apply app_nil_r. discriminate Hj.
Qed.

Lemma not_lifecycle_new_view e : is_lifecycle e = false → ∀ v m, e ≠ new_view v m.
Proof. intros He v m ->. discriminate He. Qed.

Lemma not_lifecycle_call e : is_lifecycle e = false → ∀ v, e ≠ call_addToMapView v.
Proof. intros He v ->. discriminate He. Qed.

Lemma added_after_construction_snoc t e :
  added_after_construction t →
  (∀ v, e = call_addToMapView v → v ∈ constructed_views t) →
  added_after_construction (t ++ [e]).
Proof.
  intros Ht He t1 v t2 Heq.
  destruct t2 as [|x t2 _] using rev_ind.
  - apply app_inj_tail in Heq as [-> ->]. apply He. reflexivity.
  - rewrite app_comm_cons, app_assoc in Heq.
    apply app_inj_tail in Heq as [-> _]. eapply Ht. reflexivity.
Qed.

Lemma stable_lifecycle : stable lifecycle.
Proof.
  split; try (intros x w H; exact H).
  - intros v x w (Hc & Hw & Ha & Hn & Ho). unfold lifecycle. wsimpl.
    rewrite length_insert. repeat split; assumption.
  - intros e w He (Hc & Hw & Ha & Hn & Ho). unfold lifecycle. wsimpl.
    rewrite (constructed_views_snoc _ _ (not_lifecycle_new_view e He)).
    rewrite (added_to_map_snoc _ _ (not_lifecycle_call e He)).
    repeat split; try assumption.
    apply added_after_construction_snoc; [exact Ho|].
    intros v ->. discriminate He.
  - intros j w Hj (Hc & Hw & Ha & Hn & Ho). unfold lifecycle. wsimpl.
    rewrite (waiting_to_be_added_snoc _ _ Hj). repeat split; assumption.
Qed.

Lemma stable_youngest v : stable (youngest v).
Proof.
  split; try (intros x w H; exact H).
  - intros u x w (Hv & Hw & Ha). unfold youngest. wsimpl.
    rewrite length_insert. repeat split; assumption.
  - intros e w He (Hv & Hw & Ha). unfold youngest. wsimpl.
    rewrite (added_to_map_snoc _ _ (not_lifecycle_call e He)).
    repeat split; assumption.
  - intros j w Hj (Hv & Hw & Ha). unfold youngest. wsimpl.
    rewrite (waiting_to_be_added_snoc _ _ Hj). repeat split; assumption.
Qed.

Lemma stable_and (I J : World → Prop) :
  stable I → stable J → stable (λ w, I w ∧ J w).
Proof.
  intros HI HJ. split.
  - intros x w [H1 H2]. split; [apply (st_loader _ HI) | apply (st_loader _ HJ)]; assumption.
  - intros x w [H1 H2].
    split; [apply (st_layer_models _ HI) | apply (st_layer_models _ HJ)]; assumption.
  - intros x w [H1 H2].
    split; [apply (st_map_model _ HI) | apply (st_map_model _ HJ)]; assumption.
  - intros x w [H1 H2].
    split; [apply (st_map_view _ HI) | apply (st_map_view _ HJ)]; assumption.
  - intros x w [H1 H2].
    split; [apply (st_heatmaps _ HI) | apply (st_heatmaps _ HJ)]; assumption.
  - intros x w [H1 H2].
    split; [apply (st_renderers _ HI) | apply (st_renderers _ HJ)]; assumption.
  - intros x w [H1 H2]. split; [apply (st_maps _ HI) | apply (st_maps _ HJ)]; assumption.
  - intros x w [H1 H2].
    split; [apply (st_promises _ HI) | apply (st_promises _ HJ)]; assumption.
  - intros x w [H1 H2].
    split; [apply (st_routes _ HI) | apply (st_routes _ HJ)]; assumption.
  - intros x w [H1 H2].
    split; [apply (st_timers _ HI) | apply (st_timers _ HJ)]; assumption.
  - intros v x w [H1 H2]. split; [apply (st_view _ HI) | apply (st_view _ HJ)]; assumption.
  - intros e w He [H1 H2]. split; [apply (st_emit _ HI) | apply (st_emit _ HJ)]; assumption.
  - intros j w Hj [H1 H2].
    split; [apply (st_enqueue _ HI) | apply (st_enqueue _ HJ)]; assumption.
Qed.

Lemma stable_just_constructed v : stable (just_constructed v).
Proof. exact (stable_and _ _ stable_lifecycle (stable_youngest v)). Qed.

(** ** The three steps of the life of a view *)

(** The construction of a view leaves it the youngest of the heap. *)
Lemma lifecycle_create_view m :
  hoare lifecycle (WidgetManager_create_view m) just_constructed lifecycle.
Proof.
  intros w (Hc & Hw & Ha & Hn & Ho).
  unfold WidgetManager_create_view. munfold. mstep.
  destruct (layer_models w !! m) as [model|]; mstep;
    [|repeat split; assumption].
  destruct (view_class_of model) as [cls|]; mstep; [|repeat split; assumption].
  set (v := length (layer_views w)).
  match goal with
  | |- match bind _ _ ?x with _ => _ end => set (w1 := x)
  end.
  assert (H1 : just_constructed v w1).
  { unfold just_constructed, lifecycle, youngest, w1. wsimpl.
    rewrite length_app. cbn [length].
    replace (length (layer_views w) + 1)%nat with (S v) by (unfold v; lia).
    rewrite (added_to_map_snoc _ (new_view v m)) by discriminate.
    unfold constructed_views. rewrite omap_app. cbn [omap].
    fold (constructed_views (trace w)). rewrite Hc. fold v.
    repeat split.
    - rewrite seq_S. reflexivity.
    - eapply Forall_impl; [exact Hw|]. cbn. intros; lia.
    - eapply Forall_impl; [exact Ha|]. cbn. intros; lia.
    - exact Hn.
    - apply added_after_construction_snoc; [exact Ho | discriminate].
    - lia.
    - exact Hw.
    - exact Ha. }
  pose proof (keeps_render _ (stable_just_constructed v) v w1 H1) as Hr.
  unfold bind. destruct (LayerView_render v w1) as [[] w2|e w2]; cbn [ret].
  - exact Hr.
  - exact (proj1 Hr).
Qed.

(** A view fit to be added: in the heap, and neither waiting nor added. *)
Lemma lifecycle_addToMapView v :
  hoare (not_yet_added v) (LayerView_addToMapView v) (λ _, lifecycle) lifecycle.
Proof.
  intros w ((Hc & Hw & Ha & Hn & Ho) & Hv & Hnw & Hna).
  unfold LayerView_addToMapView. rewrite bind_emit.
  apply (keeps_addToMapView_body _ stable_lifecycle v).
  unfold lifecycle. wsimpl.
  rewrite (constructed_views_snoc _ (call_addToMapView v)) by discriminate.
  unfold added_to_map at 1 2. rewrite omap_app. cbn [omap].
  fold (added_to_map (trace w)).
  repeat split.
  - exact Hc.
  - exact Hw.
  - apply Forall_app. split; [exact Ha|]. constructor; [exact Hv | constructor].
  - rewrite app_assoc. apply NoDup_app. split; [exact Hn|]. split.
    + intros x Hx Hx'. apply list_elem_of_singleton in Hx' as ->.
      apply elem_of_app in Hx as [Hx|Hx]; contradiction.
    + apply NoDup_singleton.
  - apply added_after_construction_snoc; [exact Ho|].
    intros u [= <-]. rewrite Hc. apply elem_of_seq. lia.
Qed.

Lemma lifecycle_run_create m p : keeps lifecycle (run_job (create_view_job m p)).
Proof.
  cbn [run_job]. apply keeps_try_catch; [|intros e; apply keeps_reject, stable_lifecycle].
  eapply hoare_bind; [apply lifecycle_create_view|].
  intros v w ((Hc & Hw & Ha & Hn & Ho) & Hv & Hyw & Hya).
  unfold enqueue, modify. unfold lifecycle. wsimpl.
  unfold waiting_to_be_added at 1 2. rewrite omap_app. cbn [omap].
  fold (waiting_to_be_added (jobs w)).
  repeat split.
  - exact Hc.
  - apply Forall_app. split; [exact Hw|]. constructor; [exact Hv | constructor].
  - exact Ha.
  - rewrite <- app_assoc. apply NoDup_app. apply NoDup_app in Hn as (Hn1 & Hn2 & Hn3).
    split; [exact Hn1|]. split.
    + intros x Hx Hx'. apply elem_of_cons in Hx' as [-> | Hx'].
      * rewrite Forall_forall in Hyw. specialize (Hyw _ Hx). lia.
      * exact (Hn2 x Hx Hx').
    + cbn [app]. apply NoDup_cons. split; [|exact Hn3].
      intros Hx. rewrite Forall_forall in Hya. specialize (Hya _ Hx). lia.
  - exact Ho.
Qed.

Lemma lifecycle_run_add v p :
  hoare (not_yet_added v) (run_job (add_to_map_job v p)) (λ _, lifecycle) lifecycle.
Proof.
  cbn [run_job].
  eapply hoare_try_catch; [|intros e; apply keeps_reject, stable_lifecycle].
  unfold PlainmapView_addLayerModel_then.
  eapply hoare_bind.
  - eapply hoare_bind; [apply lifecycle_addToMapView|].
    intros u. exact (keeps_ret lifecycle v).
  - intros childView. apply keeps_fulfil, stable_lifecycle.
Qed.

(** ** Every event keeps the invariant *)

Lemma lifecycle_step release e : keeps lifecycle (step release e).
Proof.
  destruct e; cbn [step].
  - apply keeps_map_render, stable_lifecycle.
  - apply keeps_bind; [apply keeps_gets | intros view].
    apply keeps_for_each. intros b. apply keeps_displayed, stable_lifecycle.
  - apply keeps_library_loaded, stable_lifecycle.
  - intros w Hl. rewrite bind_gets.
    destruct (jobs w) as [|j rest] eqn:Hjobs; [exact Hl|].
    rewrite bind_modify.
    destruct Hl as (Hc & Hw & Ha & Hn & Ho). rewrite Hjobs in Hw, Hn.
    destruct j as [m p|v p|v].
    + apply lifecycle_run_create. repeat split; assumption.
    + cbn [waiting_to_be_added omap] in Hw, Hn.
      fold (waiting_to_be_added rest) in Hw, Hn.
      apply Forall_cons in Hw as [Hv Hw]. cbn [app] in Hn.
      apply NoDup_cons in Hn as [Hnot Hn].
      apply lifecycle_run_add. unfold not_yet_added. wsimpl.
      split; [repeat split; assumption|]. split; [exact Hv|].
      split; intros Hin; apply Hnot; apply elem_of_app; [left | right]; exact Hin.
    + cbn [run_job]. apply (keeps_remove _ stable_lifecycle).
      repeat split; assumption.
  - apply keeps_route_done, stable_lifecycle.
  - apply keeps_bind; [apply keeps_gets | intros n]. destruct n as [|n].
    + apply keeps_ret.
    + apply keeps_bind; [|intros _; apply keeps_redraw, stable_lifecycle].
      apply keeps_modify. intros w Hl. exact Hl.
  - apply keeps_LayerModel_set, stable_lifecycle.
  - apply keeps_set_data_bounds, stable_lifecycle.
  - apply keeps_bind; [apply keeps_gets | intros model].
    apply keeps_modify. intros w Hl. exact Hl.
  - apply keeps_modify. intros w Hl. exact Hl.
  - apply keeps_remove, stable_lifecycle.
Qed.

Lemma lifecycle_dispatch release e w :
  lifecycle w → lifecycle (dispatch release w e).
Proof.
  intros Hl. unfold dispatch. pose proof (lifecycle_step release e w Hl) as H.
  destruct (step release e w) as [[] w'|err w']; [exact H|].
  apply (st_emit _ stable_lifecycle); [reflexivity | exact H].
Qed.

Lemma lifecycle_run release events w :
  lifecycle w → lifecycle (run release events w).
Proof.
  unfold run. revert w. induction events as [|e events IH]; intros w Hl; [exact Hl|].
  cbn [foldl]. apply IH. apply lifecycle_dispatch. exact Hl.
Qed.

(** X12.  On a page that starts without layer views, whatever happens
    (renders, loads, jobs, routing answers, attribute changes, removals,
    in any order): the views are constructed once each, in the order of
    their places in the heap; [addToMapView] is called on a view only
    after the view was constructed, and at most once. *)
Theorem layer_view_lifecycle release events w0 :
  layer_views w0 = [] →
  jobs w0 = [] →
  trace w0 = [] →
  let w := run release events w0 in
  constructed_views (trace w) = seq 0 (length (layer_views w))
  ∧ added_after_construction (trace w)
  ∧ NoDup (added_to_map (trace w)).
Proof.
  intros Hviews Hjobs Htrace w.
  assert (H0 : lifecycle w0).
  { unfold lifecycle. rewrite Hviews, Hjobs, Htrace. cbn.
    repeat split; try constructor.
    intros t1 v t2 Heq. destruct t1; discriminate Heq. }
  destruct (lifecycle_run release events w0 H0) as (Hc & _ & _ & Hn & Ho).
  split; [exact Hc|]. split; [exact Ho|].
  apply NoDup_app in Hn as (_ & _ & Hn). exact Hn.
Qed.

(** The sample page. *)
Lemma sample_page_lifecycle :
  constructed_views (trace sample_page) = [0; 1; 2]%nat
  ∧ added_to_map (trace sample_page) = [0; 1; 2]%nat
  ∧ added_after_construction (trace sample_page)
  ∧ NoDup (added_to_map (trace sample_page)).
Proof.
  destruct (layer_view_lifecycle release_handle sample_events sample_world
              eq_refl eq_refl eq_refl) as (Hc & Ho & Hn).
  split; [vm_compute; reflexivity|]. split; [vm_compute; reflexivity|].
  split; [exact Ho | exact Hn].
Defined.

(** ** Rendering the map view *)

